(** * TVBOXZ device-side playback engine: shallow embedding and properties

  The development follows the device player of the repository:
  - [src/components/MediaPlayer.tsx]  (module [MediaPlayer]),
  - [src/pages/tvbox/TVBoxDisplay.tsx] (module [TVBoxDisplay]),
  - [services/videoCache] (module [VideoCache]),
  - [backend/services/deviceService.js] (module [DeviceService]),
  - [backend/websocket/socketHandler.js] (module [SocketHandler]),
  - [backend/routes/player.js] (module [PlayerRoute]),
  - [backend/routes/devices.js] (module [DevicesRoute]),
  - [src/pages/DeviceApp.tsx] (module [DeviceApp]).

  React state is threaded explicitly: a state setter called with an
  updater [prev => e] becomes a function on the previous value, and an
  asynchronous function becomes a function from the inputs it awaits
  (network outcome, storage contents, clock) to its results and the
  requests it issued. *)

From Stdlib Require Import ZArith List String Ascii Bool Lia QArith.
Import ListNotations.
Open Scope string_scope.
Open Scope Z_scope.

(** JavaScript's strict equality, on strings. *)
Infix "===" := String.eqb (at level 70, no associativity).

(** ** JavaScript values used by the player *)

Module JS.

(** Numbers that flow through index and duration arithmetic. The player
    only adds, multiplies and takes remainders of integers, so a number
    is an integer or [NaN] (the value of [x % 0]). *)
Inductive num : Type :=
| Num (z : Z)
| NaN.

Definition add (a b : num) : num :=
  match a, b with
  | Num x, Num y => Num (x + y)
  | _, _ => NaN
  end.

Definition sub (a b : num) : num :=
  match a, b with
  | Num x, Num y => Num (x - y)
  | _, _ => NaN
  end.

Definition mul (a b : num) : num :=
  match a, b with
  | Num x, Num y => Num (x * y)
  | _, _ => NaN
  end.

(** [a % b]: the remainder takes the sign of the dividend, and a zero
    divisor gives [NaN]. *)
Definition rem (a b : num) : num :=
  match a, b with
  | Num x, Num y => if y =? 0 then NaN else Num (Z.rem x y)
  | _, _ => NaN
  end.

(** Truthiness of a number: [0] and [NaN] are falsy. *)
Definition truthy (a : num) : bool :=
  match a with
  | Num z => negb (z =? 0)
  | NaN => false
  end.

(** Truthiness of a string: only the empty string is falsy. *)
Definition truthy_str (s : string) : bool :=
  match s with
  | EmptyString => false
  | String _ _ => true
  end.

(** Truthiness of an optional field ([undefined]/[null] when absent). *)
Definition truthy_opt {A : Type} (t : A -> bool) (o : option A) : bool :=
  match o with
  | Some a => t a
  | None => false
  end.

(** [o || d] on an optional number. *)
Definition or_num (o : option num) (d : num) : num :=
  match o with
  | Some a => if truthy a then a else d
  | None => d
  end.

(** [arr.length] *)
Definition length {A : Type} (l : list A) : num := Num (Z.of_nat (List.length l)).

(** [arr[i]]: [undefined] outside the array and at [NaN]. *)
Definition get {A : Type} (l : list A) (i : num) : option A :=
  match i with
  | Num z => if z <? 0 then None else nth_error l (Z.to_nat z)
  | NaN => None
  end.

End JS.

(** A remote command as delivered on the [command] channel event. *)
Record Command : Type := mkCommand {
cmd_type : string;
cmd_action : option string
}.

Definition command (t : string) : Command := mkCommand t None.

(** ** backend/services/deviceService.js *)

(** One manifest item as it travels from the server to the player. The
    player reads it as [any], so every field it may look up is optional;
    a field is [None] when the object has no such key or holds [null]. *)
Record WireItem : Type := mkWire {
  w_content_id : option JS.num;
  w_id : option JS.num;
  w_playlist_id : option Z;
  w_type : string;
  w_checksum : option string;
  w_duration_seconds : option JS.num;
  w_url : option string;
  w_file_path : option string
}.

Module DeviceService.

(** One row of the playlist/content join selected by [getDeviceManifest]. *)
Record Row : Type := mkRow {
  playlist_id : Z;
  content_id : Z;
  order_index : Z;
  playlist_duration : option JS.num;
  title : string;
  type : string;
  file_path : option string;
  mime_type : option string;
  checksum : option string;
  content_duration : option JS.num
}.

(** The object built for one row by the [playlist.map] of
    [getDeviceManifest]. Its keys are [id], [playlist_id], [title],
    [type], [mime_type], [checksum], [duration_seconds], [url] and
    [file_path]: there is no [content_id] key. *)
Definition manifestItem (baseUrl : string) (item : Row) : WireItem :=
  {| w_content_id := None;
     w_id := Some (JS.Num (content_id item));
     w_playlist_id := Some (playlist_id item);
     w_type := type item;
     w_checksum := checksum item;
     w_duration_seconds :=
       if type item === "image"
       then Some (JS.or_num (playlist_duration item) (JS.Num 10))
       else content_duration item;
     w_url :=
       match file_path item with
       | Some fp => if JS.truthy_str fp then Some (baseUrl ++ "/" ++ fp) else None
       | None => None
       end;
     w_file_path := file_path item |}.

Definition getDeviceManifest (baseUrl : string) (playlist : list Row) : list WireItem :=
  map (manifestItem baseUrl) playlist.

(** [deviceSockets]: the map from a device id to the id of its socket.
    Only lookups by key are made on it. *)
Definition DeviceSockets : Type := Z -> option string.

Definition noSockets : DeviceSockets := fun _ => None.

(** [markConnected], as far as the map goes (it also refreshes
    [last_seen] in the database). *)
Definition markConnected (deviceId : Z) (socketId : string) (m : DeviceSockets)
  : DeviceSockets :=
  fun k => if k =? deviceId then Some socketId else m k.

Definition markDisconnected (deviceId : Z) (m : DeviceSockets) : DeviceSockets :=
  fun k => if k =? deviceId then None else m k.

Definition getDeviceSocket (deviceId : Z) (m : DeviceSockets) : option string :=
  m deviceId.

(** [getDeviceManifest] with its [try]/[catch]: [query] is the result of
    the playlist query, [None] when the query is rejected, in which case
    the empty manifest is returned instead of an error. *)
Definition getDeviceManifestOr (baseUrl : string) (query : option (list Row))
  : list WireItem :=
  match query with
  | Some playlist => getDeviceManifest baseUrl playlist
  | None => []
  end.

End DeviceService.

(** ** utils/deviceStorage *)

Module DeviceStorage.

(** Modelled from the spec: the maximum number of cached media entries,
    the policy constant of the cache store. *)
Definition MAX_ENTRIES : nat := 50.

(** Modelled from the spec: the two outcomes of [put]. *)
Inductive PutResult : Type :=
| Success
| IntegrityError.

Section Store.

(** The persisted playlist holds the player's items. *)
Variable Item : Type.

(** The content hash of a blob (SHA-256 in the spec). *)
Variable digest_of : list Byte.byte -> string.

(** Modelled from the spec: one cached media blob with the digest of its
    bytes and the time it was cached. *)
Record CacheEntry : Type := mkEntry {
  contentId : string;
  blob : list Byte.byte;
  digest : string;
  cachedAt : Z
}.

(** Modelled from the spec: the device-local store of
    [utils/deviceStorage], which is not among the sources. It holds the
    last persisted manifest, the time of the last sync and the media
    cache entries, each area separate from the others. *)
Record t : Type := mkStore {
  playlist : list Item;
  lastSync : option Z;
  media : list CacheEntry
}.

(** Modelled from the spec: [savePlaylist] persists the normalized
    manifest (the body of [utils/deviceStorage] is missing). *)
Definition savePlaylist (p : list Item) (s : t) : t :=
  {| playlist := p; lastSync := lastSync s; media := media s |}.

(** Modelled from the spec: [getPlaylist] is [loadCachedManifest], the
    last persisted manifest or the empty one. *)
Definition getPlaylist (s : t) : list Item := playlist s.

(** Modelled from the spec: [updateLastSync] records the fetch time. *)
Definition updateLastSync (now : Z) (s : t) : t :=
  {| playlist := playlist s; lastSync := Some now; media := media s |}.

(** Modelled from the spec: the entry of a content id, of which there is
    at most one. *)
Definition lookup (cid : string) (m : list CacheEntry) : option CacheEntry :=
  find (fun e => contentId e === cid) m.

(** Modelled from the spec: [isCached] is [has(contentId,
    expectedDigest?)], true if an entry exists and, when a digest is
    given, the stored digest matches it. *)
Definition isCached (cid : string) (expected : option string) (s : t) : bool :=
  match lookup cid (media s) with
  | None => false
  | Some e =>
      match expected with
      | None => true
      | Some d => digest e === d
      end
  end.

(** Modelled from the spec: [getCachedMedia] is [get(contentId)], the
    cached bytes or a miss; it never refetches. *)
Definition getCachedMedia (cid : string) (s : t) : option (list Byte.byte) :=
  option_map blob (lookup cid (media s)).

(** Modelled from the spec: dropping the entry of a content id. *)
Definition remove (cid : string) (m : list CacheEntry) : list CacheEntry :=
  filter (fun e => negb (contentId e === cid)) m.

(** Modelled from the spec: the entry cached longest ago (the first one
    among equals), which is the one evicted under capacity pressure. *)
Fixpoint oldest (m : list CacheEntry) : option CacheEntry :=
  match m with
  | [] => None
  | e :: r =>
      match oldest r with
      | None => Some e
      | Some o => if cachedAt e <=? cachedAt o then Some e else Some o
      end
  end.

(** Modelled from the spec: eviction of the entry cached longest ago. *)
Definition evictOldest (m : list CacheEntry) : list CacheEntry :=
  match oldest m with
  | None => m
  | Some o => remove (contentId o) m
  end.

(** Modelled from the spec: [cacheMedia] is [put(contentId, bytes,
    expectedDigest?)]. It computes the digest of the bytes; on a mismatch
    with the expected digest it rejects the write and persists nothing;
    otherwise it replaces the entry of that id, evicting the entry cached
    longest ago first when the store is at capacity. *)
Definition cacheMedia (now : Z) (cid : string) (bytes : list Byte.byte)
           (expected : option string) (s : t) : PutResult * t :=
  let d := digest_of bytes in
  let persist :=
    let others := remove cid (media s) in
    let room :=
      if (MAX_ENTRIES <=? List.length others)%nat then evictOldest others else others in
    (Success,
     {| playlist := playlist s; lastSync := lastSync s;
        media := (room ++ [mkEntry cid bytes d now])%list |}) in
  match expected with
  | None => persist
  | Some e => if e === d then persist else (IntegrityError, s)
  end.

End Store.

Arguments playlist {Item} _.
Arguments lastSync {Item} _.
Arguments media {Item} _.
Arguments mkStore {Item} _ _ _.
Arguments savePlaylist {Item} _ _.
Arguments getPlaylist {Item} _.
Arguments updateLastSync {Item} _ _.
Arguments isCached {Item} _ _ _.
Arguments getCachedMedia {Item} _ _.
Arguments cacheMedia {Item} _ _ _ _ _ _.

End DeviceStorage.

(** ** MediaPlayer.tsx *)

Module MediaPlayer.

Record PlaylistItem : Type := mkItem {
  id : JS.num;
  type : string;
  url : string;
  duration_seconds : option JS.num;
  order : option Z;
  active : bool;
  checksum : option string
}.

(** What a media element is given as its [src]: an object URL made from
    bytes held by the device, or the item's own URL. *)
Inductive MediaUrl : Type :=
| ObjectUrl (bytes : list Byte.byte)
| DirectUrl (u : string).

Record State : Type := mkState {
  playlist : list PlaylistItem;
  currentIndex : JS.num;
  isLoading : bool;
  error : option string;
  isOnline : bool;
  currentMediaUrl : option MediaUrl;
  nextMediaUrl : option MediaUrl;
  isPreloading : bool
}.

(** The state a freshly mounted player starts from ([useState] defaults). *)
Definition initialState (online : bool) : State :=
  {| playlist := []; currentIndex := JS.Num 0; isLoading := true;
     error := None; isOnline := online; currentMediaUrl := None;
     nextMediaUrl := None; isPreloading := false |}.

(** Requests and messages the player sends out. *)
Inductive Request : Type :=
| GetManifest (token : string)
| FetchMedia (u : string)
| PlaybackEvent (itemId : JS.num) (kind : string) (action : string)
| ErrorReport (msg : string).

(** The outcome of [api.get] on the manifest endpoint: a rejected promise,
    or a response whose [data.data] is an array (or is absent). *)
Inductive ApiResult : Type :=
| ApiError
| ApiOk (data : option (list (option WireItem))).

(** The [filter] predicate of [loadPlaylist]:
    [item && item.content_id && item.url]. *)
Definition validItem (item : option WireItem) : bool :=
  match item with
  | None => false
  | Some i =>
      JS.truthy_opt JS.truthy (w_content_id i)
      && JS.truthy_opt JS.truthy_str (w_url i)
  end.

(** The [map] callback of [loadPlaylist]; it only runs on items that
    passed [validItem], so the defaults below are never taken. *)
Definition toPlaylistItem (item : option WireItem) : list PlaylistItem :=
  match item with
  | Some i =>
      match w_content_id i, w_url i with
      | Some cid, Some u =>
          [ {| id := cid; type := w_type i; url := u;
               duration_seconds := w_duration_seconds i;
               order := w_playlist_id i; active := true;
               checksum := w_checksum i |} ]
      | _, _ => []
      end
  | None => []
  end.

Definition transformPlaylist (serverPlaylist : list (option WireItem))
  : list PlaylistItem :=
  flat_map toPlaylistItem (filter validItem serverPlaylist).

Definition setPlaylist (p : list PlaylistItem) (st : State) : State :=
  {| playlist := p; currentIndex := currentIndex st; isLoading := isLoading st;
     error := error st; isOnline := isOnline st;
     currentMediaUrl := currentMediaUrl st; nextMediaUrl := nextMediaUrl st;
     isPreloading := isPreloading st |}.

Definition setError (e : option string) (st : State) : State :=
  {| playlist := playlist st; currentIndex := currentIndex st;
     isLoading := isLoading st; error := e; isOnline := isOnline st;
     currentMediaUrl := currentMediaUrl st; nextMediaUrl := nextMediaUrl st;
     isPreloading := isPreloading st |}.

Definition setIsLoading (b : bool) (st : State) : State :=
  {| playlist := playlist st; currentIndex := currentIndex st;
     isLoading := b; error := error st; isOnline := isOnline st;
     currentMediaUrl := currentMediaUrl st; nextMediaUrl := nextMediaUrl st;
     isPreloading := isPreloading st |}.

Definition setCurrentIndex (f : JS.num -> JS.num) (st : State) : State :=
  {| playlist := playlist st; currentIndex := f (currentIndex st);
     isLoading := isLoading st; error := error st; isOnline := isOnline st;
     currentMediaUrl := currentMediaUrl st; nextMediaUrl := nextMediaUrl st;
     isPreloading := isPreloading st |}.

Definition setMediaUrls (cur next : option MediaUrl) (st : State) : State :=
  {| playlist := playlist st; currentIndex := currentIndex st;
     isLoading := isLoading st; error := error st; isOnline := isOnline st;
     currentMediaUrl := cur; nextMediaUrl := next;
     isPreloading := false |}.

Abbreviation Storage := (DeviceStorage.t PlaylistItem).

(** The [catch] branch of [loadPlaylist]. *)
Definition loadPlaylistCatch (ds : Storage) (st : State) : State :=
  let cachedPlaylist := DeviceStorage.getPlaylist ds in
  match cachedPlaylist with
  | _ :: _ =>
      setError (Some "Usando playlist em cache (offline)")
               (setPlaylist cachedPlaylist st)
  | [] => setError (Some "Nenhum conteúdo disponível") st
  end.

(** [loadPlaylist]: [token] is the [device_token] of the local storage,
    [resp] what the manifest request resolves to if it is sent, [now] the
    clock. The result is the new component state, the new device storage
    and the requests sent. *)
Definition loadPlaylist (token : option string) (resp : ApiResult) (now : Z)
           (ds : Storage) (st : State) : State * Storage * list Request :=
  let st0 := setIsLoading true st in
  let '(st1, ds1, reqs) :=
    if isOnline st then
      match token with
      | Some tok =>
          if JS.truthy_str tok then
            match resp with
            | ApiOk data =>
                let serverPlaylist :=
                  match data with Some d => d | None => [] end in
                let transformedPlaylist := transformPlaylist serverPlaylist in
                let ds' := DeviceStorage.savePlaylist transformedPlaylist ds in
                let st' := setPlaylist transformedPlaylist st0 in
                let ds'' := DeviceStorage.updateLastSync now ds' in
                (setError None st', ds'', [GetManifest tok])
            | ApiError => (loadPlaylistCatch ds st0, ds, [GetManifest tok])
            end
          else (loadPlaylistCatch ds st0, ds, [])
      | None => (loadPlaylistCatch ds st0, ds, [])
      end
    else
      let cachedPlaylist := DeviceStorage.getPlaylist ds in
      (setError None (setPlaylist cachedPlaylist st0), ds, [])
  in
  (setIsLoading false st1, ds1, reqs).

(** The updater passed to [setCurrentIndex] by [handleMediaEnd] and by
    the skip branch of [loadCurrentMedia]:
    [(prev) => (prev + 1) % playlist.length]. *)
Definition handleMediaEnd (playlist : list PlaylistItem) (prev : JS.num) : JS.num :=
  JS.rem (JS.add prev (JS.Num 1)) (JS.length playlist).

(** What [handleCommand] does to the video element. *)
Inductive VideoAction : Type := Play | Pause.

(** [handleCommand]: the new [currentIndex] and the call made on the
    current video element, if any. *)
Definition handleCommand (playlist : list PlaylistItem) (c : Command)
           (prev : JS.num) : JS.num * option VideoAction :=
  if cmd_type c === "play" then (prev, Some Play)
  else if cmd_type c === "pause" then (prev, Some Pause)
  else if cmd_type c === "next" then (handleMediaEnd playlist prev, None)
  else if cmd_type c === "restart" then (JS.Num 0, None)
  else (prev, None).

(** The image timer effect: the delay handed to [setTimeout], or [None]
    when the effect arms no timer for the current item. *)
Definition imageTimer (playlist : list PlaylistItem) (currentIndex : JS.num)
  : option JS.num :=
  match JS.get playlist currentIndex with
  | Some currentItem =>
      if (type currentItem === "image")
         && JS.truthy_opt JS.truthy (duration_seconds currentItem)
      then match duration_seconds currentItem with
           | Some d => Some (JS.mul d (JS.Num 1000))
           | None => None
           end
      else None
  | None => None
  end.

(** Whether the render puts the current item in a [<video>] element
    (otherwise it is put in an [<img>]). *)
Definition rendersVideo (playlist : list PlaylistItem) (currentIndex : JS.num) : bool :=
  match JS.get playlist currentIndex with
  | Some currentItem => type currentItem === "video"
  | None => false
  end.

Definition rendersImage (playlist : list PlaylistItem) (currentIndex : JS.num) : bool :=
  match JS.get playlist currentIndex with
  | Some currentItem => negb (type currentItem === "video")
  | None => false
  end.

(** What the events of a shown item act on: [currentIndex], and the
    number of [ended]/[error] listener pairs that [setupVideoHandlers] has
    added to the [<video>] element now mounted. *)
Record Playing : Type := mkPlaying {
  index : JS.num;
  listeners : nat
}.

(** The events that reach the player while an item is shown. *)
Inductive Event : Type :=
| TimerFired
| VideoLoadedData
| VideoEnded
| VideoError
| ImageError
| Remote (c : Command).

(** [setupVideoHandlers] as the [onLoadedData] prop calls it
    ([currentVideoRef.current] is the mounted element): it adds one [ended] and
    one [error] listener, each calling [handleMediaEnd]; the function it
    returns, which would remove them, is dropped by the caller. *)
Definition setupVideoHandlers (p : Playing) : Playing :=
  {| index := index p; listeners := S (listeners p) |}.

(** The render that follows an update of [currentIndex]. The [<video>]
    and the [<img>] stand at the same place of the tree, so React keeps
    the [<video>] element, with the listeners added to it, when a video
    follows a video, and mounts a new element otherwise. *)
Definition rerender (playlist : list PlaylistItem) (p : Playing) (i' : JS.num)
  : Playing :=
  {| index := i';
     listeners :=
       if rendersVideo playlist (index p) && rendersVideo playlist i'
       then listeners p else O |}.

(** One event applied to the player. A timer can only fire if the image
    timer effect armed one for the current item, and a media element only
    raises events while it is the one rendered. The timer, the [onError]
    prop of the image and a remote command are one call of their handler;
    an [ended] or [error] event of the video runs every listener added
    to the element, each applying the updater of [handleMediaEnd] to the
    index in turn. The updates of one event are taken to be applied by
    one render (React's batching); the index reached is the same if each
    update is rendered on its own. *)
Definition step (playlist : list PlaylistItem) (p : Playing) (e : Event) : Playing :=
  match e with
  | TimerFired =>
      match imageTimer playlist (index p) with
      | Some _ => rerender playlist p (handleMediaEnd playlist (index p))
      | None => p
      end
  | VideoLoadedData =>
      if rendersVideo playlist (index p) then setupVideoHandlers p else p
  | VideoEnded | VideoError =>
      if rendersVideo playlist (index p)
      then rerender playlist p
             (Nat.iter (listeners p) (handleMediaEnd playlist) (index p))
      else p
  | ImageError =>
      if rendersImage playlist (index p)
      then rerender playlist p (handleMediaEnd playlist (index p))
      else p
  | Remote c => rerender playlist p (fst (handleCommand playlist c (index p)))
  end.

Definition run (playlist : list PlaylistItem) (p : Playing) (es : list Event) : Playing :=
  fold_left (step playlist) es p.

Section Media.

Variable digest_of : list Byte.byte -> string.

(** What [fetch(item.url)] followed by [response.blob()] gives: the bytes,
    or [None] when the request fails or the response is not [ok]. *)
Variable fetch : string -> option (list Byte.byte).

(** [preloadMedia]: the URL to play, the storage afterwards and the
    requests sent. The cache is keyed by the item's URL. *)
Definition preloadMedia (now : Z) (item : PlaylistItem) (ds : Storage)
  : MediaUrl * Storage * list Request :=
  let download :=
    match fetch (url item) with
    | None => (DirectUrl (url item), ds, [FetchMedia (url item)])
    | Some blob =>
        let ds' :=
          if JS.truthy_opt JS.truthy_str (checksum item)
          then snd (DeviceStorage.cacheMedia digest_of now (url item) blob
                                             (checksum item) ds)
          else ds in
        (ObjectUrl blob, ds', [FetchMedia (url item)])
    end in
  if DeviceStorage.isCached (url item) (checksum item) ds then
    match DeviceStorage.getCachedMedia (url item) ds with
    | Some cachedBlob => (ObjectUrl cachedBlob, ds, [])
    | None => download
    end
  else download.

(** [loadCurrentMedia]; [socket] tells whether the socket is set. *)
Definition loadCurrentMedia (now : Z) (socket : bool) (ds : Storage) (st : State)
  : State * Storage * list Request :=
  let skip := (setCurrentIndex (handleMediaEnd (playlist st)) st, ds, []) in
  match playlist st with
  | [] => (st, ds, [])
  | _ =>
      match JS.get (playlist st) (currentIndex st) with
      | None => skip
      | Some currentItem =>
          if active currentItem then
            let '(currentUrl, ds1, r1) := preloadMedia now currentItem ds in
            let nextIndex :=
              JS.rem (JS.add (currentIndex st) (JS.Num 1)) (JS.length (playlist st)) in
            let '(next, ds2, r2) :=
              match JS.get (playlist st) nextIndex with
              | Some nextItem =>
                  if active nextItem then
                    let '(nextUrl, d, r) := preloadMedia now nextItem ds1 in
                    (Some nextUrl, d, r)
                  else (nextMediaUrl st, ds1, [])
              | None => (nextMediaUrl st, ds1, [])
              end in
            let started :=
              if socket
              then [PlaybackEvent (id currentItem) (type currentItem) "started"]
              else [] in
            (setMediaUrls (Some currentUrl) next st, ds2, (r1 ++ r2 ++ started)%list)
          else skip
      end
  end.

Inductive View : Type :=
| BlockedScreen
| LoadingScreen
| NoContentScreen (message : string)
| PreparingScreen
| MediaScreen (video : bool) (src : MediaUrl).

Definition truthyUrl (u : option MediaUrl) : bool :=
  match u with
  | Some (ObjectUrl _) => true
  | Some (DirectUrl s) => JS.truthy_str s
  | None => false
  end.

(** The value returned by the component for its props and state. *)
Definition render (isBlocked : bool) (st : State) : View :=
  if isBlocked then BlockedScreen
  else if isLoading st then LoadingScreen
  else
    match error st, playlist st with
    | Some e, [] =>
        if JS.truthy_str e then NoContentScreen e else PreparingScreen
    | _, _ =>
        match JS.get (playlist st) (currentIndex st), currentMediaUrl st with
        | Some currentItem, Some src =>
            if truthyUrl (Some src)
            then MediaScreen (type currentItem === "video") src
            else PreparingScreen
        | _, _ => PreparingScreen
        end
    end.

(** A mounted player up to the first run of its loading effects: the
    initialize effect calls [loadPlaylist], and once the playlist is not
    empty the media effect calls [loadCurrentMedia]. [isBlocked] is the
    prop of that name; the result also holds what is rendered at the end. *)
Definition mount (isBlocked online socket : bool) (token : option string)
           (resp : ApiResult) (now : Z) (ds : Storage)
  : State * Storage * list Request * View :=
  let '(st1, ds1, r1) := loadPlaylist token resp now ds (initialState online) in
  let '(st2, ds2, r2) :=
    match playlist st1 with
    | [] => (st1, ds1, [])
    | _ => loadCurrentMedia now socket ds1 st1
    end in
  (st2, ds2, (r1 ++ r2)%list, render isBlocked st2).

(** The media effect run [passes] times in a row, as it is while each
    pass changes [currentIndex]: the states are threaded and the requests
    collected. *)
Fixpoint loadPasses (passes : nat) (now : Z) (socket : bool) (ds : Storage)
         (st : State) : State * Storage * list Request :=
  match passes with
  | O => (st, ds, [])
  | S k =>
      let '(st1, ds1, r1) := loadCurrentMedia now socket ds st in
      let '(st2, ds2, r2) := loadPasses k now socket ds1 st1 in
      (st2, ds2, (r1 ++ r2)%list)
  end.

End Media.

(** The playlist item [p] is the wire entry [item] with its fields copied
    and marked active. *)
Definition normalizes (item : option WireItem) (p : PlaylistItem) : Prop :=
  exists w : WireItem,
    item = Some w
    /\ w_content_id w = Some (id p)
    /\ w_url w = Some (url p)
    /\ type p = w_type w
    /\ duration_seconds p = w_duration_seconds w
    /\ order p = w_playlist_id w
    /\ checksum p = w_checksum w.

(** The item can be loaded: it is active and has an identifier and a URL. *)
Definition playable (p : PlaylistItem) : Prop :=
  active p = true /\ JS.truthy (id p) = true /\ JS.truthy_str (url p) = true.

End MediaPlayer.

(** ** services/videoCache *)

Module VideoCache.

Record Metadata : Type := mkMetadata {
  quality : option string;
  size : option Z;
  format : option string;
  preloaded : option bool
}.

Record CachedVideo : Type := mkVideo {
  id : string;
  url : string;
  cachedAt : Z;
  metadata : option Metadata
}.

(** A JavaScript [Map] keyed by strings: its entries in insertion order,
    which is the order [keys()] and [entries()] iterate in. *)
Definition JsMap : Type := list (string * CachedVideo).

(** [map.set(k, v)]: a key already present keeps its place and takes the
    new value; a new key goes to the end. *)
Fixpoint map_set (k : string) (v : CachedVideo) (m : JsMap) : JsMap :=
  match m with
  | [] => [(k, v)]
  | (k', v') :: r => if k' === k then (k, v) :: r else (k', v') :: map_set k v r
  end.

Definition map_delete (k : string) (m : JsMap) : JsMap :=
  filter (fun kv => negb (fst kv === k)) m.

Definition map_get (k : string) (m : JsMap) : option CachedVideo :=
  option_map snd (find (fun kv => fst kv === k) m).

(** [map.keys().next().value] *)
Definition first_key (m : JsMap) : option string :=
  match m with
  | [] => None
  | (k, _) :: _ => Some k
  end.

Definition CACHE_DURATION : Z := 30 * 60 * 1000.

Definition MAX_CACHE_SIZE : nat := 50.

(** The cache object: the in-memory map and the [video_cache] item of the
    local storage. *)
Record t : Type := mkCache {
  cache : JsMap;
  video_cache : option JsMap
}.

Definition empty : t := {| cache := []; video_cache := None |}.

(** [cacheVideo]; [now] is [Date.now()]. *)
Definition cacheVideo (now : Z) (id url : string) (metadata : option Metadata)
           (c : t) : t :=
  let evicted :=
    if (MAX_CACHE_SIZE <=? List.length (cache c))%nat then
      match first_key (cache c) with
      | Some oldestKey =>
          if JS.truthy_str oldestKey then map_delete oldestKey (cache c)
          else cache c
      | None => cache c
      end
    else cache c in
  let cachedVideo := mkVideo id url now metadata in
  let cache' := map_set id cachedVideo evicted in
  {| cache := cache'; video_cache := Some cache' |}.

Definition isExpired (now : Z) (v : CachedVideo) : bool :=
  CACHE_DURATION <? now - cachedAt v.

Definition updateStorage (c : t) : t :=
  {| cache := cache c; video_cache := Some (cache c) |}.

Definition clearExpiredCache (now : Z) (c : t) : t :=
  let expiredKeys := map fst (filter (fun kv => isExpired now (snd kv)) (cache c)) in
  let c' := {| cache := fold_left (fun m k => map_delete k m) expiredKeys (cache c);
               video_cache := video_cache c |} in
  match expiredKeys with
  | [] => c'
  | _ => updateStorage c'
  end.

Definition loadFromStorage (now : Z) (c : t) : t :=
  match video_cache c with
  | Some cacheData =>
      clearExpiredCache now {| cache := cacheData; video_cache := video_cache c |}
  | None => c
  end.

Definition getCachedVideo (now : Z) (id : string) (c : t) : option CachedVideo * t :=
  let c1 := match cache c with [] => loadFromStorage now c | _ => c end in
  match map_get id (cache c1) with
  | None => (None, c1)
  | Some cached =>
      if isExpired now cached
      then (None, updateStorage {| cache := map_delete id (cache c1);
                                   video_cache := video_cache c1 |})
      else (Some cached, c1)
  end.

Definition clearCache (c : t) : t := {| cache := []; video_cache := None |}.

Definition getCacheSize (c : t) : nat := List.length (cache c).

(** [Array.from(map.keys())] *)
Definition keys (m : JsMap) : list string := map fst m.


(** Whether no key occurs twice, which holds of every [Map]. *)
Fixpoint uniqueKeys (m : JsMap) : bool :=
  match m with
  | [] => true
  | (k, _) :: r => negb (existsb (String.eqb k) (keys r)) && uniqueKeys r
  end.

(** No key of the map is the empty string. *)
Definition keysTruthy (m : JsMap) : Prop :=
  Forall (fun kv => JS.truthy_str (fst kv) = true) m.

(** One call of [cacheVideo] with the clock value it reads. *)
Record Insertion : Type := mkInsertion {
  at_time : Z;
  ins_id : string;
  ins_url : string
}.

Definition insertAll (c : t) (calls : list Insertion) : t :=
  fold_left (fun c i => cacheVideo (at_time i) (ins_id i) (ins_url i) None c) calls c.

(** The entries of a map whose [cachedAt] is the smallest. *)
Definition isOldest (m : JsMap) (v : CachedVideo) : bool :=
  forallb (fun kv => cachedAt v <=? cachedAt (snd kv)) m.

(** The identifier of the n-th video of a test run. *)
Definition vid (n : nat) : string :=
  String "v" (String (ascii_of_nat (48 + n / 10)) (String (ascii_of_nat (48 + n mod 10)) "")).

(** Insertions of the videos [from], [from + 1], ... ([count] of them),
    one per clock tick starting at [time]. *)
Fixpoint fill (from count : nat) (time : Z) : list Insertion :=
  match count with
  | O => []
  | S k => mkInsertion time (vid from) "u" :: fill (S from) k (time + 1)
  end.

End VideoCache.

(** ** TVBoxDisplay.tsx *)

Module TVBoxDisplay.

Record ContentItem : Type := mkContent {
  id : string;
  title : string;
  file_path : string;
  categoria : string;
  type : string;
  duration : option JS.num
}.

Definition goToNext (content : list ContentItem) (prev : JS.num) : JS.num :=
  match content with
  | [] => prev
  | _ => JS.rem (JS.add prev (JS.Num 1)) (JS.length content)
  end.

Definition goToPrevious (content : list ContentItem) (prev : JS.num) : JS.num :=
  match content with
  | [] => prev
  | _ => JS.rem (JS.add (JS.sub prev (JS.Num 1)) (JS.length content))
                (JS.length content)
  end.

Inductive SideEffect : Type :=
| VideoPlay
| VideoPause
| LogShutdown
| WindowReload.

Definition handleRemoteCommand (content : list ContentItem) (c : Command)
           (prev : JS.num) : JS.num * option SideEffect :=
  if cmd_type c === "play" then (prev, Some VideoPlay)
  else if cmd_type c === "pause" then (prev, Some VideoPause)
  else if cmd_type c === "next" then (goToNext content prev, None)
  else if cmd_type c === "previous" then (goToPrevious content prev, None)
  else if cmd_type c === "restart" then (JS.Num 0, None)
  else if cmd_type c === "power_control" then
    match cmd_action c with
    | Some a =>
        if a === "shutdown" then (prev, Some LogShutdown)
        else if a === "restart" then (prev, Some WindowReload)
        else (prev, None)
    | None => (prev, None)
    end
  else (prev, None).

Definition isVideo (c : ContentItem) : bool :=
  (categoria c === "video") || (type c === "video").

(** The per-item effect: for anything that is not a video it arms an
    interval calling [goToNext]; the result is the delay handed to
    [setInterval]. *)
Definition imageInterval (content : list ContentItem) (currentIndex : JS.num)
  : option JS.num :=
  match content with
  | [] => None
  | _ =>
      match JS.get content currentIndex with
      | None => None
      | Some currentContent =>
          if isVideo currentContent then None
          else Some (JS.mul (JS.or_num (duration currentContent) (JS.Num 10))
                            (JS.Num 1000))
      end
  end.

Record Announcement : Type := mkAnnouncement {
  ann_id : string;
  ann_title : string;
  ann_content : string;
  display_duration : option JS.num;
  order_index : Z
}.

(** The part of the component state the scheduler works on. *)
Record Cursor : Type := mkCursor {
  currentIndex : JS.num;
  showingAnnouncement : bool;
  currentAnnouncementIndex : JS.num
}.

Definition initialCursor : Cursor :=
  {| currentIndex := JS.Num 0; showingAnnouncement := false;
     currentAnnouncementIndex := JS.Num 0 |}.

(** [Math.random() < 0.3] for a draw [r]. *)
Definition below_threshold (r : Q) : bool := negb (Qle_bool (3 # 10) r).

Definition js_lt (a b : JS.num) : bool :=
  match a, b with
  | JS.Num x, JS.Num y => x <? y
  | _, _ => false
  end.

(** The callback of the auto-advance interval. [random] is the stream of
    values [Math.random()] returns and [calls] counts the draws made so
    far; the draw is only made while content is shown and there are
    announcements. *)
Definition autoAdvance (content : list ContentItem) (announcements : list Announcement)
           (random : nat -> Q) (calls : nat) (c : Cursor) : Cursor * nat :=
  let advance (prevIndex : JS.num) :=
    JS.rem (JS.add prevIndex (JS.Num 1)) (JS.length content) in
  if showingAnnouncement c then
    if js_lt (currentAnnouncementIndex c)
             (JS.sub (JS.length announcements) (JS.Num 1))
    then ({| currentIndex := currentIndex c; showingAnnouncement := true;
             currentAnnouncementIndex :=
               JS.add (currentAnnouncementIndex c) (JS.Num 1) |}, calls)
    else ({| currentIndex :=
               match content with
               | [] => currentIndex c
               | _ => advance (currentIndex c)
               end;
             showingAnnouncement := false;
             currentAnnouncementIndex := JS.Num 0 |}, calls)
  else
    match announcements with
    | _ :: _ =>
        if below_threshold (random calls)
        then ({| currentIndex := currentIndex c; showingAnnouncement := true;
                 currentAnnouncementIndex := JS.Num 0 |}, S calls)
        else
          match content with
          | [] => (c, S calls)
          | _ => ({| currentIndex := advance (currentIndex c);
                     showingAnnouncement := false;
                     currentAnnouncementIndex := currentAnnouncementIndex c |},
                  S calls)
          end
    | [] =>
        match content with
        | [] => (c, calls)
        | _ => ({| currentIndex := advance (currentIndex c);
                   showingAnnouncement := false;
                   currentAnnouncementIndex := currentAnnouncementIndex c |},
                calls)
        end
    end.

(** The period of the auto-advance interval, in milliseconds. *)
Definition autoAdvancePeriod (announcements : list Announcement) (c : Cursor) : JS.num :=
  if showingAnnouncement c then
    JS.mul (JS.or_num
              (match JS.get announcements (currentAnnouncementIndex c) with
               | Some a => display_duration a
               | None => None
               end)
              (JS.Num 5))
           (JS.Num 1000)
  else JS.Num 10000.

Definition setIndex (f : JS.num -> JS.num) (c : Cursor) : Cursor :=
  {| currentIndex := f (currentIndex c);
     showingAnnouncement := showingAnnouncement c;
     currentAnnouncementIndex := currentAnnouncementIndex c |}.

(** The value of [displayContent] computed before the final render, with
    the two early returns of that block. This is what the component
    selects; what it puts on the screen is [render] below. *)
Inductive Display : Type :=
| NoContentAvailable
| ContentNotFound
| ShowAnnouncement (a : Announcement)
| ShowContent (c : ContentItem).

Definition displayContent (content : list ContentItem)
           (announcements : list Announcement) (c : Cursor) : Display :=
  match showingAnnouncement c, announcements, content with
  | true, _ :: _, _ =>
      match JS.get announcements (currentAnnouncementIndex c) with
      | Some a => ShowAnnouncement a
      | None => ContentNotFound
      end
  | _, _, _ :: _ =>
      match JS.get content (currentIndex c) with
      | Some item => ShowContent item
      | None => ContentNotFound
      end
  | _, _, [] => NoContentAvailable
  end.

(** Whether a [<video>] element is rendered for the current content. *)
Definition rendersVideo (content : list ContentItem) (c : Cursor) : bool :=
  negb (showingAnnouncement c)
  && match JS.get content (currentIndex c) with
     | Some currentContent => isVideo currentContent
     | None => false
     end.

(** The timer and media events and the remote commands. *)
Inductive Event : Type :=
| AutoAdvanceTick
| ImageIntervalFired
| VideoEnded
| VideoErrorDelayElapsed
| Remote (c : Command).

(** One event applied to the cursor; the auto-advance interval exists
    unless both lists are empty, the image interval only while the
    per-item effect armed it, and a video only ends while it is
    rendered. [VideoErrorDelayElapsed] is the 3 s timeout set by the
    video's [onError]. *)
Definition step (content : list ContentItem) (announcements : list Announcement)
           (random : nat -> Q) (s : Cursor * nat) (e : Event) : Cursor * nat :=
  let '(c, calls) := s in
  match e with
  | AutoAdvanceTick =>
      match content, announcements with
      | [], [] => (c, calls)
      | _, _ => autoAdvance content announcements random calls c
      end
  | ImageIntervalFired =>
      match imageInterval content (currentIndex c) with
      | Some _ => (setIndex (goToNext content) c, calls)
      | None => (c, calls)
      end
  | VideoEnded =>
      if rendersVideo content c then (setIndex (goToNext content) c, calls)
      else (c, calls)
  | VideoErrorDelayElapsed => (setIndex (goToNext content) c, calls)
  | Remote cmd =>
      (setIndex (fun prev => fst (handleRemoteCommand content cmd prev)) c, calls)
  end.

(** What is selected for display after each event of a run. *)
Fixpoint shown (content : list ContentItem) (announcements : list Announcement)
         (random : nat -> Q) (s : Cursor * nat) (es : list Event) : list Display :=
  match es with
  | [] => []
  | e :: r =>
      let s' := step content announcements random s e in
      displayContent content announcements (fst s')
      :: shown content announcements random s' r
  end.

(** The cursor points into the lists: the content index at a content
    item and, while an announcement is shown, the announcement index at
    an announcement. *)
Definition cursorInRange (content : list ContentItem)
           (announcements : list Announcement) (c : Cursor) : Prop :=
  (exists i, currentIndex c = JS.Num i /\ 0 <= i < Z.of_nat (List.length content))
  /\ (showingAnnouncement c = true ->
      exists j, currentAnnouncementIndex c = JS.Num j
                /\ 0 <= j < Z.of_nat (List.length announcements)).

(** What is selected for display is an entry of one of the two lists. *)
Definition showsListed (content : list ContentItem)
           (announcements : list Announcement) (d : Display) : Prop :=
  match d with
  | ShowAnnouncement a => In a announcements
  | ShowContent item => In item content
  | NoContentAvailable | ContentNotFound => False
  end.

(** The [mediaAspectRatio] state: [landscape] at first, then what the
    metadata of the last video loaded says. *)
Inductive AspectRatio : Type := landscape | portrait | square.

Definition isPortraitContent (mediaAspectRatio : AspectRatio) : bool :=
  match mediaAspectRatio with
  | portrait => true
  | _ => false
  end.

(** The outcome of one render of the component. After the selection,
    [currentContent] is [null] while [showingAnnouncement] holds, and
    outside the portrait layout the title box reads
    [currentContent.title] without a guard: the render throws, and React
    unmounts the component. *)
Inductive Rendered : Type :=
| Screen (d : Display)
| RenderThrows.

Definition render (mediaAspectRatio : AspectRatio) (content : list ContentItem)
           (announcements : list Announcement) (c : Cursor) : Rendered :=
  match displayContent content announcements c with
  | NoContentAvailable => Screen NoContentAvailable
  | ContentNotFound => Screen ContentNotFound
  | d =>
      if showingAnnouncement c && negb (isPortraitContent mediaAspectRatio)
      then RenderThrows
      else Screen d
  end.

(** A run of events on the mounted component, each followed by a render:
    the state after the last event, or [None] once a render has thrown
    and the component, with its intervals and listeners, is gone. The
    layout only changes on the metadata of a video, which is not among
    these events, so it is fixed along the run. *)
Fixpoint runMounted (mediaAspectRatio : AspectRatio) (content : list ContentItem)
         (announcements : list Announcement) (random : nat -> Q)
         (s : Cursor * nat) (es : list Event) : option (Cursor * nat) :=
  match es with
  | [] => Some s
  | e :: r =>
      let s' := step content announcements random s e in
      match render mediaAspectRatio content announcements (fst s') with
      | RenderThrows => None
      | Screen _ => runMounted mediaAspectRatio content announcements random s' r
      end
  end.

Definition isTick (e : Event) : bool :=
  match e with
  | AutoAdvanceTick => true
  | _ => false
  end.

(** The number of firings of the auto-advance interval among events. *)
Definition ticks (es : list Event) : nat := List.length (filter isTick es).

Record VideoFormat : Type := mkFormat {
  quality : string;
  url : string;
  size : option Z;
  extension : string
}.

Inductive NetworkQuality : Type := high | medium | low.

(** The [preferredQualities] of [getAdaptiveVideoUrl]. *)
Definition preferredQualities (networkQuality : NetworkQuality) : list string :=
  match networkQuality with
  | high => ["1080p"; "720p"; "480p"]
  | medium => ["720p"; "480p"; "360p"]
  | low => ["480p"; "360p"; "240p"]
  end.

(** The loop over the preferred qualities: for each one the first format
    of that quality is looked up, and its URL is returned if truthy. *)
Fixpoint firstPreferred (formats : list VideoFormat) (qualities : list string)
  : option string :=
  match qualities with
  | [] => None
  | q :: rest =>
      match find (fun f => quality f === q) formats with
      | Some found =>
          if JS.truthy_str (url found) then Some (url found)
          else firstPreferred formats rest
      | None => firstPreferred formats rest
      end
  end.

(** [getAdaptiveVideoUrl]; [formats] is [contentItem.formats], [None]
    when the item has none, and the result is [None] for [null]. *)
Definition getAdaptiveVideoUrl (networkQuality : NetworkQuality)
           (formats : option (list VideoFormat)) : option string :=
  match formats with
  | Some (first :: others) =>
      match firstPreferred (first :: others) (preferredQualities networkQuality) with
      | Some u => Some u
      | None => if JS.truthy_str (url first) then Some (url first) else None
      end
  | _ => None
  end.

(** [getOptimalVideoUrl]: the URL to load and the video cache afterwards.
    [formats] is [content.formats] and [videoCapabilities] the supported
    extensions, [None] before they are detected. The [catch] branch, which
    also returns [content.file_path], is only reached on an exception of
    the cache. *)
Definition getOptimalVideoUrl (now : Z) (networkQuality : NetworkQuality)
           (videoCapabilities : option (list string))
           (content : ContentItem) (formats : option (list VideoFormat))
           (vc : VideoCache.t) : string * VideoCache.t :=
  match VideoCache.getCachedVideo now (id content) vc with
  | (Some cachedVideo, vc1) => (VideoCache.url cachedVideo, vc1)
  | (None, vc1) =>
      match getAdaptiveVideoUrl networkQuality formats with
      | Some adaptiveUrl => (adaptiveUrl, vc1)
      | None =>
          match formats, videoCapabilities with
          | Some fs, Some supported =>
              match find (fun format =>
                            existsb (fun cap => cap === extension format) supported) fs with
              | Some bestFormat =>
                  (url bestFormat,
                   VideoCache.cacheVideo now (id content) (url bestFormat)
                     (Some (VideoCache.mkMetadata (Some (quality bestFormat))
                              (size bestFormat) (Some (extension bestFormat)) None))
                     vc1)
              | None => (file_path content, vc1)
              end
          | _, _ => (file_path content, vc1)
          end
      end
  end.

(** The preloading of one upcoming video by the preload effect:
    [getOptimalVideoUrl] followed, when the URL is truthy, by [cacheVideo]
    with the adaptive quality label. *)
Definition preloadVideo (now : Z) (networkQuality : NetworkQuality)
           (adaptiveQuality : string) (videoCapabilities : option (list string))
           (nextContent : ContentItem) (formats : option (list VideoFormat))
           (vc : VideoCache.t) : VideoCache.t :=
  let '(videoUrl, vc1) :=
    getOptimalVideoUrl now networkQuality videoCapabilities nextContent formats vc in
  if JS.truthy_str videoUrl then
    VideoCache.cacheVideo now (id nextContent) videoUrl
      (Some (VideoCache.mkMetadata (Some adaptiveQuality) None None (Some true))) vc1
  else vc1.

End TVBoxDisplay.

(** ** DeviceApp.tsx *)

Module DeviceApp.

Record LocalStorage : Type := mkLocal {
  device_token : option string;
  device_id : option string;
  device_uuid : option string
}.

(** What the manifest request of [initializeDevice] comes to: a response
    with its [success] flag, or an error with the status of its response
    if it has one. *)
Inductive Probe : Type :=
| Resolved (success : bool)
| Rejected (status : option Z).

Record State : Type := mkApp {
  deviceId : option JS.num;
  isBlocked : bool;
  isLoading : bool;
  deviceToken : option string
}.

Definition initialState : State :=
  {| deviceId := None; isBlocked := false; isLoading := true; deviceToken := None |}.

Definition clearIdentity (ls : LocalStorage) : LocalStorage :=
  {| device_token := None; device_id := None; device_uuid := None |}.

Section Initialize.

(** [parseInt] on the stored device id. *)
Variable parseInt : string -> JS.num.

Definition initializeDevice (ls : LocalStorage) (probe : Probe)
  : State * LocalStorage :=
  match device_token ls, device_id ls with
  | Some storedToken, Some storedDeviceId =>
      if JS.truthy_str storedToken && JS.truthy_str storedDeviceId then
        match probe with
        | Resolved true =>
            ({| deviceId := Some (parseInt storedDeviceId); isBlocked := false;
                isLoading := false; deviceToken := Some storedToken |}, ls)
        | Resolved false =>
            ({| deviceId := None; isBlocked := false; isLoading := false;
                deviceToken := None |}, ls)
        | Rejected (Some 404) =>
            ({| deviceId := None; isBlocked := false; isLoading := false;
                deviceToken := None |}, clearIdentity ls)
        | Rejected (Some 403) =>
            ({| deviceId := Some (parseInt storedDeviceId); isBlocked := true;
                isLoading := false; deviceToken := None |}, ls)
        | Rejected _ =>
            ({| deviceId := None; isBlocked := false; isLoading := false;
                deviceToken := None |}, clearIdentity ls)
        end
      else
        ({| deviceId := None; isBlocked := false; isLoading := false;
            deviceToken := None |}, ls)
  | _, _ =>
      ({| deviceId := None; isBlocked := false; isLoading := false;
          deviceToken := None |}, ls)
  end.

End Initialize.

(** What the component returns. *)
Inductive Screen : Type :=
| Initializing
| Onboarding
| Player (deviceId : JS.num) (isBlocked : bool).

Definition render (st : State) : Screen :=
  if isLoading st then Initializing
  else
    match deviceId st with
    | Some d => if JS.truthy d then Player d (isBlocked st) else Onboarding
    | None => Onboarding
    end.

End DeviceApp.

(** ** websocket/socketHandler.js *)

Module SocketHandler.

(** The device namespace: the socket map of [DeviceService] and the
    sockets connected to the namespace, each with the device id its token
    carried. *)
Record Server : Type := mkServer {
  deviceSockets : DeviceService.DeviceSockets;
  sockets : string -> option Z
}.

Definition start : Server :=
  {| deviceSockets := DeviceService.noSockets; sockets := fun _ => None |}.

(** The [connection] handler of the device namespace for a socket with
    id [socketId] whose token carried [deviceId]. *)
Definition connection (socketId : string) (deviceId : Z) (srv : Server) : Server :=
  {| deviceSockets := DeviceService.markConnected deviceId socketId (deviceSockets srv);
     sockets := fun s => if s === socketId then Some deviceId else sockets srv s |}.

(** The [disconnect] handler of the socket [socketId]; it runs for a
    socket of the namespace and unregisters the device id of that socket. *)
Definition disconnect (socketId : string) (srv : Server) : Server :=
  match sockets srv socketId with
  | Some deviceId =>
      {| deviceSockets := DeviceService.markDisconnected deviceId (deviceSockets srv);
         sockets := fun s => if s === socketId then None else sockets srv s |}
  | None => srv
  end.

(** What the [device:command] handler answers to the admin. *)
Inductive CommandSent : Type :=
| Sent (socketId : string)
| DeviceSocketNotFound
| DeviceNotConnected.

Definition deviceCommand (device_id : Z) (srv : Server) : CommandSent :=
  match DeviceService.getDeviceSocket device_id (deviceSockets srv) with
  | Some deviceSocketId =>
      if JS.truthy_str deviceSocketId then
        match sockets srv deviceSocketId with
        | Some _ => Sent deviceSocketId
        | None => DeviceSocketNotFound
        end
      else DeviceNotConnected
  | None => DeviceNotConnected
  end.

Inductive Event : Type :=
| Connect (socketId : string) (deviceId : Z)
| Disconnect (socketId : string).

Definition handle (srv : Server) (e : Event) : Server :=
  match e with
  | Connect s d => connection s d srv
  | Disconnect s => disconnect s srv
  end.

Definition run (srv : Server) (es : list Event) : Server := fold_left handle es srv.

(** The event concerns neither the socket [socketId] nor the device
    [deviceId]: it is the connection of another socket for another
    device, or the disconnection of another socket. *)
Definition aboutOthers (socketId : string) (deviceId : Z) (e : Event) : Prop :=
  match e with
  | Connect s d => s <> socketId /\ d <> deviceId
  | Disconnect s => s <> socketId
  end.

End SocketHandler.

(** ** routes/player.js *)

Module PlayerRoute.

(** [s.split(sep)] for a one-character separator. *)
Fixpoint split (sep : ascii) (s : string) : list string :=
  match s with
  | EmptyString => [EmptyString]
  | String c rest =>
      if Ascii.eqb c sep then EmptyString :: split sep rest
      else
        match split sep rest with
        | first :: others => String c first :: others
        | [] => [String c EmptyString]
        end
  end.

(** The claims of a verified device token. *)
Record Payload : Type := mkPayload {
  role : string;
  device_id : JS.num;
  device_uuid : option string;
  tenant_id : option Z
}.

Inductive Response : Type :=
| Unauthorized (error : string)
| Forbidden (error : string)
| Manifest (data : list WireItem) (device_id : JS.num).

Definition status (r : Response) : Z :=
  match r with
  | Unauthorized _ => 401
  | Forbidden _ => 403
  | Manifest _ _ => 200
  end.

(** [a !== b] on numbers. *)
Definition differ (a b : JS.num) : bool :=
  match a, b with
  | JS.Num x, JS.Num y => negb (x =? y)
  | _, _ => true
  end.

Section Route.

(** [jwt.verify] with the device secret: the payload, or [None] when it
    throws. *)
Variable verify : string -> option Payload.

Variable parseInt : string -> JS.num.

(** The result of the playlist query for a device id of the path, [None]
    when the query is rejected. *)
Variable query : string -> option (list DeviceService.Row).

Variable baseUrl : string.

(** The [authenticateDevice] middleware: the response it ends the request
    with, or the [req.device.id] it passes on. *)
Definition authenticateDevice (authorization : option string) : Response + JS.num :=
  let token :=
    match authorization with
    | Some authHeader =>
        if JS.truthy_str authHeader then nth_error (split " " authHeader) 1 else None
    | None => None
    end in
  match token with
  | Some tok =>
      if JS.truthy_str tok then
        match verify tok with
        | Some payload =>
            if role payload === "device" then inr (device_id payload)
            else inl (Forbidden "Invalid token role")
        | None => inl (Forbidden "Invalid or expired token")
        end
      else inl (Unauthorized "No token provided")
  | None => inl (Unauthorized "No token provided")
  end.

(** [GET /:deviceId/manifest] *)
Definition getManifest (authorization : option string) (deviceId : string) : Response :=
  match authenticateDevice authorization with
  | inl response => response
  | inr deviceOfToken =>
      if differ (parseInt deviceId) deviceOfToken
      then Forbidden "Device ID mismatch"
      else Manifest (DeviceService.getDeviceManifestOr baseUrl (query deviceId))
                    (parseInt deviceId)
  end.

End Route.

(** What the player's [api.get] makes of a response: a status outside
    2xx rejects the promise. *)
Definition toApiResult (r : Response) : MediaPlayer.ApiResult :=
  match r with
  | Manifest data _ => MediaPlayer.ApiOk (Some (map Some data))
  | _ => MediaPlayer.ApiError
  end.

(** The same for the request of [initializeDevice]; a manifest response
    has [success: true]. *)
Definition toProbe (r : Response) : DeviceApp.Probe :=
  match r with
  | Manifest _ _ => DeviceApp.Resolved true
  | _ => DeviceApp.Rejected (Some (status r))
  end.

End PlayerRoute.

(** ** routes/devices.js *)

(** The [devices] table and the playlist query, as far as the device
    routes read them. *)
Module Database.

Record Device : Type := mkDevice {
  id : Z;
  device_id : string;
  status : string
}.

Record t : Type := mkDb {
  devices : list Device;
  (** the rows the playlist query of [getDeviceManifest] returns for a
      device id, [None] when the query is rejected *)
  playlist : string -> option (list DeviceService.Row)
}.

(** [SELECT status FROM devices WHERE device_id = ?] *)
Definition selectStatus (db : t) (deviceId : string) : list string :=
  map status (filter (fun d => device_id d === deviceId) (devices db)).

End Database.

Module DevicesRoute.

Inductive Response : Type :=
| NotFound
| Blocked
| Playlist (deviceId : string) (items : list WireItem) (version : nat).

Definition status (r : Response) : Z :=
  match r with
  | NotFound => 404
  | Blocked => 403
  | Playlist _ _ _ => 200
  end.

(** [GET /:deviceId/playlist], the public route: the only place of the
    backend that reads the [status] column of a device. *)
Definition getPlaylist (db : Database.t) (baseUrl : string) (deviceId : string)
  : Response :=
  match Database.selectStatus db deviceId with
  | [] => NotFound
  | status :: _ =>
      if status === "blocked" then Blocked
      else
        let manifest :=
          DeviceService.getDeviceManifestOr baseUrl (Database.playlist db deviceId) in
        Playlist deviceId manifest (List.length manifest)
  end.

End DevicesRoute.

(** ** Sample data

    The manifest of the spec's scenario A (an image shown for 5 s followed
    by a video), in the shape of each player, used to run the definitions
    on concrete inputs. *)

Definition imageA : MediaPlayer.PlaylistItem :=
  MediaPlayer.mkItem (JS.Num 1) "image" "http://cdn/a.png"
                     (Some (JS.Num 5)) (Some 10%Z) true (Some "D2").

Definition videoB : MediaPlayer.PlaylistItem :=
  MediaPlayer.mkItem (JS.Num 2) "video" "http://cdn/b.mp4"
                     (Some (JS.Num 47)) (Some 11%Z) true None.

Definition imageC : MediaPlayer.PlaylistItem :=
  MediaPlayer.mkItem (JS.Num 3) "image" "http://cdn/c.png"
                     (Some (JS.Num 8)) (Some 12%Z) true None.

Definition scenarioA : list MediaPlayer.PlaylistItem := [imageA; videoB].

Definition contentA : TVBoxDisplay.ContentItem :=
  TVBoxDisplay.mkContent "a" "a.png" "http://cdn/a.png" "image" "image"
                         (Some (JS.Num 5)).

Definition contentB : TVBoxDisplay.ContentItem :=
  TVBoxDisplay.mkContent "b" "b.mp4" "http://cdn/b.mp4" "video" "video" None.

Definition tvScenarioA : list TVBoxDisplay.ContentItem := [contentA; contentB].

Definition notice : TVBoxDisplay.Announcement :=
  TVBoxDisplay.mkAnnouncement "n1" "Notice" "Closed on Monday" (Some (JS.Num 7)) 0.



(** A stand-in for the content hash on sample runs: the bytes themselves,
    read as a string. *)
Definition sample_digest (bytes : list Byte.byte) : string :=
  string_of_list_byte bytes.

(** A playlist row as the database holds it, and the storage of a device
    that persisted scenario A on an earlier run. *)
Definition rowA : DeviceService.Row :=
  DeviceService.mkRow 7 1 0 (Some (JS.Num 5)) "a" "image" (Some "uploads/a.png")
                      (Some "image/png") (Some "D2") None.

Definition rowB : DeviceService.Row :=
  DeviceService.mkRow 8 2 1 None "b" "video" (Some "uploads/b.mp4")
                      (Some "video/mp4") None (Some (JS.Num 47)).

Definition storedScenarioA : MediaPlayer.Storage :=
  DeviceStorage.mkStore scenarioA (Some 100) [].

(** A network on which every media download succeeds with three bytes. *)
Definition sample_fetch (u : string) : option (list Byte.byte) :=
  Some [Byte.x01; Byte.x02; Byte.x03].

(** A device storage whose media cache holds the bytes of item "a" under
    the digest ["D1"]. *)
Definition storedWithD1 : MediaPlayer.Storage :=
  DeviceStorage.mkStore scenarioA (Some 100)
    [DeviceStorage.mkEntry "http://cdn/a.png" [Byte.x0a] "D1" 50].

Definition sample_parseInt (s : string) : JS.num := JS.Num 7.

Definition registeredDevice : DeviceApp.LocalStorage :=
  DeviceApp.mkLocal (Some "token") (Some "7") (Some "uuid-7").


(** A video cache filled to its maximum size by fifty insertions, one per
    clock tick. *)
Definition fullCache : VideoCache.t :=
  VideoCache.insertAll VideoCache.empty (VideoCache.fill 0 50 0).

(** A verifier that accepts the one token ["token"], issued to device 7,
    and a database holding the rows of scenario A. *)
Definition sample_verify (token : string) : option PlayerRoute.Payload :=
  if token === "token"
  then Some (PlayerRoute.mkPayload "device" (JS.Num 7) None (Some 1))
  else None.

Definition sample_query (deviceId : string) : option (list DeviceService.Row) :=
  Some [rowA; rowB].

(** A second video, and a playlist on which two videos follow each
    other. *)
Definition videoD : MediaPlayer.PlaylistItem :=
  MediaPlayer.mkItem (JS.Num 4) "video" "http://cdn/d.mp4"
                     (Some (JS.Num 30)) (Some 13%Z) true None.

Definition twoVideos : list MediaPlayer.PlaylistItem := [videoB; videoD; imageA; imageC].


(** * Properties *)

(** ** Index arithmetic *)

Lemma rem_succ_in_range (i n : Z) :
  0 <= i < n ->
  JS.rem (JS.add (JS.Num i) (JS.Num 1)) (JS.Num n) = JS.Num ((i + 1) mod n).
Proof.
  intros Hi. unfold JS.rem, JS.add.
  destruct (Z.eqb_spec n 0) as [E | _]; [lia |].
  f_equal. apply Z.rem_mod_nonneg; lia.
Qed.

Lemma rem_pred_in_range (i n : Z) :
  0 <= i < n ->
  JS.rem (JS.add (JS.sub (JS.Num i) (JS.Num 1)) (JS.Num n)) (JS.Num n)
  = JS.Num ((i - 1 + n) mod n).
Proof.
  intros Hi. unfold JS.rem, JS.add, JS.sub.
  destruct (Z.eqb_spec n 0) as [E | _]; [lia |].
  f_equal. apply Z.rem_mod_nonneg; lia.
Qed.

Lemma mod_in_range (a n : Z) : 0 < n -> 0 <= a mod n < n.
Proof. intros Hn. apply Z.mod_pos_bound. exact Hn. Qed.

Lemma handleMediaEnd_in_range (playlist : list MediaPlayer.PlaylistItem) (i : Z) :
  0 <= i < Z.of_nat (List.length playlist) ->
  MediaPlayer.handleMediaEnd playlist (JS.Num i)
  = JS.Num ((i + 1) mod Z.of_nat (List.length playlist)).
Proof. intros Hi. unfold MediaPlayer.handleMediaEnd, JS.length. now apply rem_succ_in_range. Qed.

Lemma goToNext_in_range (content : list TVBoxDisplay.ContentItem) (i : Z) :
  0 <= i < Z.of_nat (List.length content) ->
  TVBoxDisplay.goToNext content (JS.Num i)
  = JS.Num ((i + 1) mod Z.of_nat (List.length content)).
Proof.
  intros Hi. unfold TVBoxDisplay.goToNext, JS.length.
  destruct content as [| c r]; [simpl in Hi; lia |].
  now apply rem_succ_in_range.
Qed.

Lemma goToPrevious_in_range (content : list TVBoxDisplay.ContentItem) (i : Z) :
  0 <= i < Z.of_nat (List.length content) ->
  TVBoxDisplay.goToPrevious content (JS.Num i)
  = JS.Num ((i - 1 + Z.of_nat (List.length content)) mod Z.of_nat (List.length content)).
Proof.
  intros Hi. unfold TVBoxDisplay.goToPrevious, JS.length.
  destruct content as [| c r]; [simpl in Hi; lia |].
  now apply rem_pred_in_range.
Qed.

(** Iterating a successor-modulo updater [k] times from [i]. *)
Lemma iter_advance (f : JS.num -> JS.num) (n : Z) :
  (forall i, 0 <= i < n -> f (JS.Num i) = JS.Num ((i + 1) mod n)) ->
  forall (k : nat) (i : Z), 0 <= i < n ->
    Nat.iter k f (JS.Num i) = JS.Num ((i + Z.of_nat k) mod n).
Proof.
  intros Hf k. induction k as [| k IH]; intros i Hi.
  - simpl. rewrite Z.add_0_r, Z.mod_small; [reflexivity | lia].
  - rewrite Nat.iter_succ, IH by exact Hi.
    rewrite Hf by (apply mod_in_range; lia).
    f_equal. rewrite Zplus_mod_idemp_l. f_equal. lia.
Qed.

Lemma iter_handleMediaEnd
      (playlist : list MediaPlayer.PlaylistItem) (k : nat) (i : Z) :
  0 <= i < Z.of_nat (List.length playlist) ->
  Nat.iter k (MediaPlayer.handleMediaEnd playlist) (JS.Num i)
  = JS.Num ((i + Z.of_nat k) mod Z.of_nat (List.length playlist)).
Proof.
  intros Hi. apply iter_advance; [| exact Hi].
  intros i' Hi'. now apply handleMediaEnd_in_range.
Qed.



(** C1, on the failing input. On the playlist of two videos followed by
    two images the timer of an image and the [next] command advance by
    one, and the last index goes back to [0]. The first video is loaded
    into a fresh element: [loadeddata] adds one listener pair and its end
    advances by one. The second video is loaded into the same element,
    which then carries two pairs, so its end runs [handleMediaEnd] twice:
    the index goes from 1 to 3 instead of [(1 + 1) mod 4], and the image
    at index 2 is never shown. *)
Theorem consecutive_videos_skip_an_item :
  let n := Z.of_nat (List.length twoVideos) in
  let fresh (i : Z) := MediaPlayer.mkPlaying (JS.Num i) 0 in
  MediaPlayer.imageTimer twoVideos (JS.Num 2) = Some (JS.Num 5000)
  /\ MediaPlayer.run twoVideos (fresh 2) [MediaPlayer.TimerFired] = fresh ((2 + 1) mod n)
  /\ MediaPlayer.run twoVideos (fresh 3) [MediaPlayer.TimerFired] = fresh 0
  /\ MediaPlayer.run twoVideos (fresh 2) [MediaPlayer.Remote (command "next")]
     = fresh ((2 + 1) mod n)
  /\ MediaPlayer.run twoVideos (fresh 0)
       [MediaPlayer.VideoLoadedData; MediaPlayer.VideoEnded]
     = MediaPlayer.mkPlaying (JS.Num ((0 + 1) mod n)) 1
  /\ MediaPlayer.run twoVideos (fresh 0)
       [MediaPlayer.VideoLoadedData; MediaPlayer.VideoEnded; MediaPlayer.VideoLoadedData]
     = MediaPlayer.mkPlaying (JS.Num 1) 2
  /\ MediaPlayer.run twoVideos (fresh 0)
       [MediaPlayer.VideoLoadedData; MediaPlayer.VideoEnded;
        MediaPlayer.VideoLoadedData; MediaPlayer.VideoEnded]
     = fresh 3
  /\ JS.Num 3 <> JS.Num ((1 + 1) mod n)
  /\ Forall (fun p => MediaPlayer.index p <> JS.Num 2)
       [MediaPlayer.run twoVideos (fresh 0) [MediaPlayer.VideoLoadedData];
        MediaPlayer.run twoVideos (fresh 0)
          [MediaPlayer.VideoLoadedData; MediaPlayer.VideoEnded];
        MediaPlayer.run twoVideos (fresh 0)
          [MediaPlayer.VideoLoadedData; MediaPlayer.VideoEnded;
           MediaPlayer.VideoLoadedData];
        MediaPlayer.run twoVideos (fresh 0)
          [MediaPlayer.VideoLoadedData; MediaPlayer.VideoEnded;
           MediaPlayer.VideoLoadedData; MediaPlayer.VideoEnded]].
Proof.
  intros n fresh.
  do 7 (split; [reflexivity |]).
  split; [discriminate |].
  repeat constructor; discriminate.
Qed.

(** ** Remote commands *)

Lemma mediaPlayer_command_in_range
      (playlist : list MediaPlayer.PlaylistItem) (c : Command) (i : Z) :
  0 <= i < Z.of_nat (List.length playlist) ->
  exists i', fst (MediaPlayer.handleCommand playlist c (JS.Num i)) = JS.Num i'
             /\ 0 <= i' < Z.of_nat (List.length playlist).
Proof.
  intros Hi. unfold MediaPlayer.handleCommand.
  destruct (cmd_type c === "play"); [exists i; now split |].
  destruct (cmd_type c === "pause"); [exists i; now split |].
  destruct (cmd_type c === "next").
  { simpl. rewrite handleMediaEnd_in_range by exact Hi.
    eexists; split; [reflexivity | apply mod_in_range; lia]. }
  destruct (cmd_type c === "restart"); [exists 0; simpl; split; [reflexivity | lia] |].
  exists i; now split.
Qed.

Lemma tvbox_command_in_range
      (content : list TVBoxDisplay.ContentItem) (c : Command) (i : Z) :
  0 <= i < Z.of_nat (List.length content) ->
  exists i', fst (TVBoxDisplay.handleRemoteCommand content c (JS.Num i)) = JS.Num i'
             /\ 0 <= i' < Z.of_nat (List.length content).
Proof.
  intros Hi. unfold TVBoxDisplay.handleRemoteCommand.
  destruct (cmd_type c === "play"); [exists i; now split |].
  destruct (cmd_type c === "pause"); [exists i; now split |].
  destruct (cmd_type c === "next").
  { simpl. rewrite goToNext_in_range by exact Hi.
    eexists; split; [reflexivity | apply mod_in_range; lia]. }
  destruct (cmd_type c === "previous").
  { simpl. rewrite goToPrevious_in_range by exact Hi.
    eexists; split; [reflexivity | apply mod_in_range; lia]. }
  destruct (cmd_type c === "restart"); [exists 0; simpl; split; [reflexivity | lia] |].
  destruct (cmd_type c === "power_control"); [| exists i; now split].
  destruct (cmd_action c) as [a |]; [| exists i; now split].
  destruct (a === "shutdown"); [exists i; now split |].
  destruct (a === "restart"); exists i; now split.
Qed.

(** Any sequence of commands keeps an in-range index in range. *)
Lemma commands_keep_range (handle : Command -> JS.num -> JS.num) (n : Z) :
  (forall c i, 0 <= i < n -> exists i', handle c (JS.Num i) = JS.Num i' /\ 0 <= i' < n) ->
  forall (cs : list Command) (i : Z), 0 <= i < n ->
    exists i', fold_left (fun idx c => handle c idx) cs (JS.Num i) = JS.Num i'
               /\ 0 <= i' < n.
Proof.
  intros Hh cs. induction cs as [| c cs IH]; intros i Hi.
  - exists i. now split.
  - simpl. destruct (Hh c i Hi) as [i1 [E1 R1]]. rewrite E1. now apply IH.
Qed.

(** C10, as stated, fails for the command handler of MediaPlayer, which
    has no [previous] case: at index 1 of 3 the command leaves the index
    at 1 instead of moving it to 0. *)
Lemma mediaPlayer_previous_not_handled :
  fst (MediaPlayer.handleCommand [imageA; videoB; imageC] (command "previous") (JS.Num 1))
  = JS.Num 1
  /\ fst (MediaPlayer.handleCommand [imageA; videoB; imageC] (command "previous") (JS.Num 1))
     <> JS.Num ((1 - 1 + 3) mod 3).
Proof. split; [reflexivity | discriminate]. Qed.

(** C10, amended. On a playlist of [n > 0] items with the index in
    [0 .. n-1]: the handler of TVBoxDisplay takes [next] to
    [(i + 1) mod n], [previous] to [(i - 1 + n) mod n] and [restart] to
    [0]; the handler of MediaPlayer takes [next] to [(i + 1) mod n] and
    [restart] to [0] and leaves the index alone on [previous], for which
    it has no case; under any sequence of commands the index of either
    player stays in [0 .. n-1]. *)
Theorem remote_commands_keep_index_in_range
        (playlist : list MediaPlayer.PlaylistItem)
        (content : list TVBoxDisplay.ContentItem)
        (cs : list Command) (i j : Z) :
  let n := Z.of_nat (List.length playlist) in
  let m := Z.of_nat (List.length content) in
  0 <= i < n ->
  0 <= j < m ->
  fst (TVBoxDisplay.handleRemoteCommand content (command "next") (JS.Num j))
  = JS.Num ((j + 1) mod m)
  /\ fst (TVBoxDisplay.handleRemoteCommand content (command "previous") (JS.Num j))
     = JS.Num ((j - 1 + m) mod m)
  /\ fst (TVBoxDisplay.handleRemoteCommand content (command "previous") (JS.Num 0))
     = JS.Num (m - 1)
  /\ fst (TVBoxDisplay.handleRemoteCommand content (command "restart") (JS.Num j))
     = JS.Num 0
  /\ (exists j',
         fold_left (fun idx c => fst (TVBoxDisplay.handleRemoteCommand content c idx))
                   cs (JS.Num j) = JS.Num j'
         /\ 0 <= j' < m)
  /\ fst (MediaPlayer.handleCommand playlist (command "next") (JS.Num i))
     = JS.Num ((i + 1) mod n)
  /\ fst (MediaPlayer.handleCommand playlist (command "restart") (JS.Num i)) = JS.Num 0
  /\ fst (MediaPlayer.handleCommand playlist (command "previous") (JS.Num i)) = JS.Num i
  /\ (exists i',
         fold_left (fun idx c => fst (MediaPlayer.handleCommand playlist c idx))
                   cs (JS.Num i) = JS.Num i'
         /\ 0 <= i' < n).
Proof.
  intros n m Hi Hj.
  split; [simpl; now apply goToNext_in_range |].
  split; [simpl; now apply goToPrevious_in_range |].
  split.
  { simpl. rewrite goToPrevious_in_range by (fold m; lia). fold m.
    f_equal. replace (0 - 1 + m) with (m - 1) by lia. apply Z.mod_small. lia. }
  split; [reflexivity |].
  split.
  { apply (commands_keep_range
             (fun c idx => fst (TVBoxDisplay.handleRemoteCommand content c idx)) m);
      [| exact Hj].
    intros c k Hk. now apply tvbox_command_in_range. }
  split; [simpl; now apply handleMediaEnd_in_range |].
  split; [reflexivity |].
  split; [reflexivity |].
  apply (commands_keep_range
           (fun c idx => fst (MediaPlayer.handleCommand playlist c idx)) n);
    [| exact Hi].
  intros c k Hk. now apply mediaPlayer_command_in_range.
Qed.

Lemma remote_commands_keep_index_in_range_witness :
  0 <= 0 < Z.of_nat (List.length scenarioA)
  /\ 0 <= 0 < Z.of_nat (List.length tvScenarioA)
  /\ fst (TVBoxDisplay.handleRemoteCommand tvScenarioA (command "previous") (JS.Num 0))
     = JS.Num 1.
Proof.
  split; [simpl; lia |]. split; [simpl; lia |].
  exact (proj1 (proj2
    (remote_commands_keep_index_in_range scenarioA tvScenarioA
       [command "next"; command "previous"; command "restart"] 0 0
       ltac:(simpl; lia) ltac:(simpl; lia)))).
Defined.

(** ** Timers *)

Lemma repeat_timer_without_timer
      (playlist : list MediaPlayer.PlaylistItem) (p : MediaPlayer.Playing) :
  MediaPlayer.imageTimer playlist (MediaPlayer.index p) = None ->
  forall k : nat,
    MediaPlayer.run playlist p (repeat MediaPlayer.TimerFired k) = p.
Proof.
  intros Hnone k. unfold MediaPlayer.run.
  induction k as [| k IH]; [reflexivity |].
  simpl. rewrite Hnone. exact IH.
Qed.

Lemma video_arms_no_timer
      (playlist : list MediaPlayer.PlaylistItem) (i : JS.num)
      (item : MediaPlayer.PlaylistItem) :
  JS.get playlist i = Some item ->
  MediaPlayer.type item = "video" ->
  MediaPlayer.imageTimer playlist i = None.
Proof.
  intros Hget Hty. unfold MediaPlayer.imageTimer. rewrite Hget, Hty. reflexivity.
Qed.

(** C4. While the current item is a video, whatever its
    [duration_seconds], the image timer effect arms no timer; the only
    events other than remote commands that move the index are the video's
    [ended] and [error] events, and no number of timer expirations moves
    it. The per-item effect of TVBoxDisplay arms no duration timer for a
    video either. *)
Theorem video_is_not_cut_by_duration
        (playlist : list MediaPlayer.PlaylistItem) (p : MediaPlayer.Playing)
        (item : MediaPlayer.PlaylistItem)
        (content : list TVBoxDisplay.ContentItem) (j : JS.num)
        (tvItem : TVBoxDisplay.ContentItem) :
  JS.get playlist (MediaPlayer.index p) = Some item ->
  MediaPlayer.type item = "video" ->
  JS.get content j = Some tvItem ->
  TVBoxDisplay.isVideo tvItem = true ->
  MediaPlayer.imageTimer playlist (MediaPlayer.index p) = None
  /\ (forall e : MediaPlayer.Event,
         (forall c, e <> MediaPlayer.Remote c) ->
         MediaPlayer.index (MediaPlayer.step playlist p e) <> MediaPlayer.index p ->
         e = MediaPlayer.VideoEnded \/ e = MediaPlayer.VideoError)
  /\ (forall k : nat,
         MediaPlayer.run playlist p (repeat MediaPlayer.TimerFired k) = p)
  /\ TVBoxDisplay.imageInterval content j = None.
Proof.
  intros Hget Hty Hget' Hvid.
  assert (Hnone : MediaPlayer.imageTimer playlist (MediaPlayer.index p) = None)
    by (eapply video_arms_no_timer; eassumption).
  split; [exact Hnone |]. split; [| split].
  - intros e Hnot Hmove. destruct e as [| | | | | c].
    + simpl in Hmove. rewrite Hnone in Hmove. congruence.
    + simpl in Hmove.
      destruct (MediaPlayer.rendersVideo playlist (MediaPlayer.index p));
        simpl in Hmove; congruence.
    + now left.
    + now right.
    + simpl in Hmove. unfold MediaPlayer.rendersImage in Hmove.
      rewrite Hget, Hty in Hmove. simpl in Hmove. congruence.
    + exfalso. now apply (Hnot c).
  - now apply repeat_timer_without_timer.
  - unfold TVBoxDisplay.imageInterval. rewrite Hget', Hvid.
    now destruct content.
Qed.

Lemma video_is_not_cut_by_duration_witness :
  MediaPlayer.imageTimer scenarioA (JS.Num 1) = None
  /\ MediaPlayer.run scenarioA (MediaPlayer.mkPlaying (JS.Num 1) 1)
       (repeat MediaPlayer.TimerFired 47)
     = MediaPlayer.mkPlaying (JS.Num 1) 1
  /\ TVBoxDisplay.imageInterval tvScenarioA (JS.Num 1) = None.
Proof.
  destruct (video_is_not_cut_by_duration scenarioA (MediaPlayer.mkPlaying (JS.Num 1) 1)
              videoB tvScenarioA (JS.Num 1) contentB
              eq_refl eq_refl eq_refl eq_refl) as [H1 [_ [H3 H4]]].
  split; [exact H1 |]. split; [exact (H3 47%nat) | exact H4].
Defined.





(** The 10 s interval of TVBoxDisplay's auto-advance runs whatever is
    shown: with no announcements a tick moves on from a video as from an
    image. *)
Lemma tvbox_auto_advance_moves_on_from_video (random : nat -> Q) :
  TVBoxDisplay.rendersVideo tvScenarioA (TVBoxDisplay.mkCursor (JS.Num 1) false (JS.Num 0))
  = true
  /\ TVBoxDisplay.autoAdvancePeriod [] (TVBoxDisplay.mkCursor (JS.Num 1) false (JS.Num 0))
     = JS.Num 10000
  /\ TVBoxDisplay.currentIndex
       (fst (TVBoxDisplay.step tvScenarioA [] random
               (TVBoxDisplay.mkCursor (JS.Num 1) false (JS.Num 0), 0%nat)
               TVBoxDisplay.AutoAdvanceTick))
     = JS.Num 0.
Proof. repeat split. Qed.




(** ** Manifest normalization *)

Lemma transformPlaylist_cons_invalid
      (item : option WireItem) (rest : list (option WireItem)) :
  MediaPlayer.validItem item = false ->
  MediaPlayer.transformPlaylist (item :: rest) = MediaPlayer.transformPlaylist rest.
Proof.
  intros Hv. unfold MediaPlayer.transformPlaylist. simpl. now rewrite Hv.
Qed.

Lemma transformPlaylist_cons_valid
      (item : option WireItem) (rest : list (option WireItem)) :
  MediaPlayer.validItem item = true ->
  exists (i : WireItem) (cid : JS.num) (u : string),
    item = Some i /\ w_content_id i = Some cid /\ w_url i = Some u
    /\ MediaPlayer.transformPlaylist (item :: rest)
       = MediaPlayer.mkItem cid (w_type i) u (w_duration_seconds i)
                            (w_playlist_id i) true (w_checksum i)
         :: MediaPlayer.transformPlaylist rest.
Proof.
  intros Hv. unfold MediaPlayer.transformPlaylist. simpl. rewrite Hv.
  destruct item as [i |]; [| discriminate]. simpl in Hv.
  destruct (w_content_id i) as [cid |] eqn:Ec; [| discriminate].
  destruct (w_url i) as [u |] eqn:Eu; [| now rewrite andb_false_r in Hv].
  exists i, cid, u. repeat split; try assumption.
  simpl. now rewrite Ec, Eu.
Qed.

(** What the normalization keeps: the URLs of the entries that carry both
    a truthy [content_id] and a truthy [url], in the order received. *)
Lemma transformPlaylist_keeps_valid_in_order (serverPlaylist : list (option WireItem)) :
  map (fun p => Some (MediaPlayer.url p)) (MediaPlayer.transformPlaylist serverPlaylist)
  = map (fun item => match item with Some i => w_url i | None => None end)
        (filter MediaPlayer.validItem serverPlaylist).
Proof.
  induction serverPlaylist as [| item rest IH]; [reflexivity |].
  destruct (MediaPlayer.validItem item) eqn:Hv.
  - destruct (transformPlaylist_cons_valid item rest Hv) as [i [cid [u [Ei [Ec [Eu Et]]]]]].
    rewrite Et. simpl. rewrite Hv. simpl. rewrite IH. subst item. now rewrite Eu.
  - rewrite transformPlaylist_cons_invalid by exact Hv. simpl. now rewrite Hv.
Qed.

Lemma server_item_fails_filter (baseUrl : string) (row : DeviceService.Row) :
  MediaPlayer.validItem (Some (DeviceService.manifestItem baseUrl row)) = false.
Proof. reflexivity. Qed.

(** C2, on the failing input. The items built by [getDeviceManifest]
    carry their identifier under the key [id]; the filter of
    [loadPlaylist] looks for [content_id], so it drops every one of them,
    also those with an identifier and a URL: the two rows of scenario A
    come out of the server as two complete items and out of the
    normalization as the empty playlist, which is then persisted. *)
Theorem server_manifest_items_are_dropped
        (baseUrl : string) (rows : list DeviceService.Row) :
  MediaPlayer.transformPlaylist (map Some (DeviceService.getDeviceManifest baseUrl rows)) = []
  /\ map (fun i => (w_id i, w_url i))
         (DeviceService.getDeviceManifest "http://localhost:3001" [rowA; rowB])
     = [ (Some (JS.Num 1), Some "http://localhost:3001/uploads/a.png");
         (Some (JS.Num 2), Some "http://localhost:3001/uploads/b.mp4") ]
  /\ (let '(st, ds, _) :=
        MediaPlayer.loadPlaylist (Some "token")
          (MediaPlayer.ApiOk
             (Some (map Some (DeviceService.getDeviceManifest
                                "http://localhost:3001" [rowA; rowB]))))
          200 storedScenarioA (MediaPlayer.initialState true) in
      MediaPlayer.playlist st = [] /\ DeviceStorage.getPlaylist ds = []).
Proof.
  split; [| split; [reflexivity | split; reflexivity]].
  induction rows as [| row rows IH]; [reflexivity |].
  simpl. rewrite transformPlaylist_cons_invalid; [exact IH | apply server_item_fails_filter].
Qed.

(** ** Manifest fetch failures *)

(** C8. When the manifest fetch fails (the request is rejected, or there
    is no device token to send) and a non-empty playlist was persisted,
    [loadPlaylist] leaves the device storage as it was, continues with the
    persisted playlist and ends the loading state. *)
Theorem failed_fetch_keeps_cached_playlist
        (token : option string) (resp : MediaPlayer.ApiResult) (now : Z)
        (ds : MediaPlayer.Storage) (st : MediaPlayer.State) :
  resp = MediaPlayer.ApiError \/ JS.truthy_opt JS.truthy_str token = false ->
  DeviceStorage.getPlaylist ds <> [] ->
  snd (fst (MediaPlayer.loadPlaylist token resp now ds st)) = ds
  /\ MediaPlayer.playlist (fst (fst (MediaPlayer.loadPlaylist token resp now ds st)))
     = DeviceStorage.getPlaylist ds
  /\ MediaPlayer.isLoading (fst (fst (MediaPlayer.loadPlaylist token resp now ds st)))
     = false
  /\ MediaPlayer.currentIndex (fst (fst (MediaPlayer.loadPlaylist token resp now ds st)))
     = MediaPlayer.currentIndex st.
Proof.
  intros Hfail Hne. unfold MediaPlayer.loadPlaylist.
  assert (Hcatch :
    MediaPlayer.playlist
      (MediaPlayer.loadPlaylistCatch ds (MediaPlayer.setIsLoading true st))
    = DeviceStorage.getPlaylist ds
    /\ MediaPlayer.currentIndex
         (MediaPlayer.loadPlaylistCatch ds (MediaPlayer.setIsLoading true st))
       = MediaPlayer.currentIndex st).
  { unfold MediaPlayer.loadPlaylistCatch.
    destruct (DeviceStorage.getPlaylist ds) as [| p ps]; [congruence |].
    split; reflexivity. }
  destruct Hcatch as [Hp Hi].
  destruct (MediaPlayer.isOnline st); [| now repeat split].
  destruct token as [tok |]; [| simpl; now repeat split].
  destruct (JS.truthy_str tok) eqn:Htok; [| simpl; now repeat split].
  destruct Hfail as [-> | Hf]; [simpl; now repeat split |].
  simpl in Hf. congruence.
Qed.

Lemma failed_fetch_keeps_cached_playlist_witness :
  snd (fst (MediaPlayer.loadPlaylist (Some "token") MediaPlayer.ApiError 200
              storedScenarioA (MediaPlayer.initialState true)))
  = storedScenarioA
  /\ MediaPlayer.playlist
       (fst (fst (MediaPlayer.loadPlaylist (Some "token") MediaPlayer.ApiError 200
                    storedScenarioA (MediaPlayer.initialState true))))
     = scenarioA.
Proof.
  destruct (failed_fetch_keeps_cached_playlist (Some "token") MediaPlayer.ApiError 200
              storedScenarioA (MediaPlayer.initialState true)
              (or_introl eq_refl) ltac:(discriminate)) as [H1 [H2 _]].
  split; [exact H1 | exact H2].
Defined.

(** ** Blocked devices *)

Lemma status_other_than_403_clears
      (parseInt : string -> JS.num) (ls : DeviceApp.LocalStorage)
      (storedToken storedDeviceId : string) (status : option Z) :
  DeviceApp.device_token ls = Some storedToken ->
  DeviceApp.device_id ls = Some storedDeviceId ->
  JS.truthy_str storedToken && JS.truthy_str storedDeviceId = true ->
  status <> Some 403 ->
  DeviceApp.initializeDevice parseInt ls (DeviceApp.Rejected status)
  = (DeviceApp.mkApp None false false None, DeviceApp.clearIdentity ls).
Proof.
  intros Ht Hd Htruthy Hstatus. unfold DeviceApp.initializeDevice.
  rewrite Ht, Hd, Htruthy.
  destruct status as [[| p | p] |]; try reflexivity.
  repeat (destruct p as [p | p |]; try reflexivity; try congruence).
Qed.




(** ** Media cache integrity *)

Lemma lookup_digest_mismatch
      (s : MediaPlayer.Storage) (cid expected : string)
      (entry : DeviceStorage.CacheEntry) :
  DeviceStorage.lookup cid (DeviceStorage.media s) = Some entry ->
  DeviceStorage.digest entry <> expected ->
  DeviceStorage.isCached cid (Some expected) s = false.
Proof.
  intros Hl Hd. unfold DeviceStorage.isCached. rewrite Hl.
  now apply String.eqb_neq.
Qed.

(** C6. A [put] with an expected digest that differs from the digest of
    the bytes is rejected and leaves the store as it was; [has] with an
    expected digest answers [false] when the stored digest differs from
    it; and then [preloadMedia] of an item carrying that digest does not
    take the cached bytes but sends a request for the item's URL. *)
Theorem digest_mismatch_rejected_and_refetched
        (digest_of : list Byte.byte -> string)
        (fetch : string -> option (list Byte.byte))
        (now : Z) (s : MediaPlayer.Storage) (cid : string)
        (bytes : list Byte.byte) (expected : string)
        (entry : DeviceStorage.CacheEntry) (item : MediaPlayer.PlaylistItem) :
  (expected <> digest_of bytes ->
   DeviceStorage.cacheMedia digest_of now cid bytes (Some expected) s
   = (DeviceStorage.IntegrityError, s))
  /\ (DeviceStorage.lookup cid (DeviceStorage.media s) = Some entry ->
      DeviceStorage.digest entry <> expected ->
      DeviceStorage.isCached cid (Some expected) s = false)
  /\ (DeviceStorage.lookup (MediaPlayer.url item) (DeviceStorage.media s) = Some entry ->
      MediaPlayer.checksum item = Some expected ->
      DeviceStorage.digest entry <> expected ->
      snd (MediaPlayer.preloadMedia digest_of fetch now item s)
      = [MediaPlayer.FetchMedia (MediaPlayer.url item)]).
Proof.
  split; [| split].
  - intros Hne. unfold DeviceStorage.cacheMedia.
    apply String.eqb_neq in Hne. now rewrite Hne.
  - apply lookup_digest_mismatch.
  - intros Hl Hc Hd. unfold MediaPlayer.preloadMedia.
    rewrite Hc, (lookup_digest_mismatch s _ expected entry Hl Hd).
    now destruct (fetch (MediaPlayer.url item)).
Qed.

Lemma digest_mismatch_rejected_and_refetched_witness :
  DeviceStorage.cacheMedia sample_digest 200 "http://cdn/a.png" [Byte.x01] (Some "D2")
                           storedWithD1
  = (DeviceStorage.IntegrityError, storedWithD1)
  /\ DeviceStorage.isCached "http://cdn/a.png" (Some "D2") storedWithD1 = false
  /\ snd (MediaPlayer.preloadMedia sample_digest sample_fetch 200 imageA storedWithD1)
     = [MediaPlayer.FetchMedia "http://cdn/a.png"].
Proof.
  destruct (digest_mismatch_rejected_and_refetched sample_digest sample_fetch 200
              storedWithD1 "http://cdn/a.png" [Byte.x01] "D2"
              (DeviceStorage.mkEntry "http://cdn/a.png" [Byte.x0a] "D1" 50) imageA)
    as [H1 [H2 H3]].
  split; [apply H1; discriminate |].
  split; [apply H2; [reflexivity | discriminate] |].
  apply H3; [reflexivity | reflexivity | discriminate].
Defined.

(** ** Video cache capacity *)

Lemma map_set_length (k : string) (v : VideoCache.CachedVideo) (m : VideoCache.JsMap) :
  (List.length (VideoCache.map_set k v m) <= S (List.length m))%nat.
Proof.
  induction m as [| [k' v'] r IH]; simpl; [lia |].
  destruct (k' === k); simpl; lia.
Qed.

Lemma map_set_keysTruthy (k : string) (v : VideoCache.CachedVideo) (m : VideoCache.JsMap) :
  JS.truthy_str k = true -> VideoCache.keysTruthy m -> VideoCache.keysTruthy (VideoCache.map_set k v m).
Proof.
  intros Hk Hm. induction Hm as [| [k' v'] r Hhd Htl IH]; simpl.
  - constructor; [exact Hk | constructor].
  - destruct (k' === k); constructor; try assumption.
Qed.

Lemma map_delete_length (k : string) (m : VideoCache.JsMap) :
  (List.length (VideoCache.map_delete k m) <= List.length m)%nat.
Proof.
  unfold VideoCache.map_delete. induction m as [| kv r IH]; simpl; [lia |].
  destruct (negb (fst kv === k)); simpl; lia.
Qed.

Lemma map_delete_first_key (k : string) (m : VideoCache.JsMap) :
  VideoCache.first_key m = Some k ->
  (List.length (VideoCache.map_delete k m) < List.length m)%nat.
Proof.
  destruct m as [| [k' v'] r]; [discriminate |].
  intros [= ->]. unfold VideoCache.map_delete. cbn [filter fst].
  rewrite String.eqb_refl. cbn [negb List.length].
  pose proof (map_delete_length k r) as H. unfold VideoCache.map_delete in H. lia.
Qed.

Lemma map_delete_keysTruthy (k : string) (m : VideoCache.JsMap) :
  VideoCache.keysTruthy m -> VideoCache.keysTruthy (VideoCache.map_delete k m).
Proof.
  intros Hm. unfold VideoCache.map_delete.
  induction Hm as [| kv r Hhd Htl IH]; simpl; [constructor |].
  destruct (negb (fst kv === k)); [constructor |]; assumption.
Qed.

(** As long as no identifier is the empty string, an insertion keeps the
    cache within its maximum size. *)
Lemma cacheVideo_bounded
      (now : Z) (id url : string) (md : option VideoCache.Metadata) (c : VideoCache.t) :
  JS.truthy_str id = true ->
  VideoCache.keysTruthy (VideoCache.cache c) ->
  (List.length (VideoCache.cache c) <= VideoCache.MAX_CACHE_SIZE)%nat ->
  VideoCache.keysTruthy (VideoCache.cache (VideoCache.cacheVideo now id url md c))
  /\ (List.length (VideoCache.cache (VideoCache.cacheVideo now id url md c))
      <= VideoCache.MAX_CACHE_SIZE)%nat.
Proof.
  intros Hid Hk Hlen. unfold VideoCache.cacheVideo. cbn [VideoCache.cache].
  destruct (Nat.leb_spec VideoCache.MAX_CACHE_SIZE (List.length (VideoCache.cache c)))
    as [Hfull | Hroom].
  - destruct (VideoCache.first_key (VideoCache.cache c)) as [k |] eqn:Hfirst.
    + assert (Hkt : JS.truthy_str k = true).
      { destruct (VideoCache.cache c) as [| [k' v'] r]; [discriminate |].
        simpl in Hfirst. injection Hfirst as ->. now inversion Hk. }
      rewrite Hkt. split.
      * apply map_set_keysTruthy; [exact Hid | now apply map_delete_keysTruthy].
      * pose proof (map_delete_first_key k _ Hfirst) as Hlt.
        pose proof (map_set_length id (VideoCache.mkVideo id url now md)
                      (VideoCache.map_delete k (VideoCache.cache c))) as Hs.
        lia.
    + destruct (VideoCache.cache c) as [| [k' v'] r]; [| discriminate].
      unfold VideoCache.MAX_CACHE_SIZE in *. simpl in Hfull. lia.
  - split.
    + now apply map_set_keysTruthy.
    + pose proof (map_set_length id (VideoCache.mkVideo id url now md)
                    (VideoCache.cache c)) as Hs.
      lia.
Qed.

Lemma insertAll_bounded (calls : list VideoCache.Insertion) :
  Forall (fun i => JS.truthy_str (VideoCache.ins_id i) = true) calls ->
  forall c : VideoCache.t,
    VideoCache.keysTruthy (VideoCache.cache c) ->
    (List.length (VideoCache.cache c) <= VideoCache.MAX_CACHE_SIZE)%nat ->
    (VideoCache.getCacheSize (VideoCache.insertAll c calls)
     <= VideoCache.MAX_CACHE_SIZE)%nat.
Proof.
  intros Hcalls. induction Hcalls as [| i calls Hi Hrest IH]; intros c Hk Hlen.
  - exact Hlen.
  - unfold VideoCache.insertAll. simpl.
    destruct (cacheVideo_bounded (VideoCache.at_time i) (VideoCache.ins_id i)
                (VideoCache.ins_url i) None c Hi Hk Hlen) as [Hk' Hlen'].
    now apply IH.
Qed.

(** C7, on the failing inputs. [cacheVideo] at capacity removes the first
    key of the map, and only if that key is truthy. (1) A video cached
    again keeps its place at the front with a new [cachedAt]: after
    caching v00, v01, v00 again and 48 more, the 50 entries have v01 as
    the one cached longest ago (at time 1), yet the next insertion removes
    v00 (cached at time 2) and keeps v01. (2) With the empty string as the
    first identifier nothing is removed, and 51 insertions leave 51
    entries. *)
Theorem cache_eviction_at_capacity :
  (let c := VideoCache.insertAll VideoCache.empty
              ([ VideoCache.mkInsertion 0 (VideoCache.vid 0) "u";
                 VideoCache.mkInsertion 1 (VideoCache.vid 1) "u";
                 VideoCache.mkInsertion 2 (VideoCache.vid 0) "u" ]
               ++ VideoCache.fill 2 48 3)%list in
   let c' := VideoCache.cacheVideo 51 (VideoCache.vid 50) "u" None c in
   VideoCache.getCacheSize c = 50%nat
   /\ option_map VideoCache.cachedAt (VideoCache.map_get (VideoCache.vid 0) (VideoCache.cache c))
      = Some 2
   /\ option_map VideoCache.cachedAt (VideoCache.map_get (VideoCache.vid 1) (VideoCache.cache c))
      = Some 1
   /\ VideoCache.isOldest (VideoCache.cache c) (VideoCache.mkVideo (VideoCache.vid 1) "u" 1 None)
      = true
   /\ VideoCache.map_get (VideoCache.vid 0) (VideoCache.cache c') = None
   /\ option_map VideoCache.cachedAt (VideoCache.map_get (VideoCache.vid 1) (VideoCache.cache c'))
      = Some 1)
  /\ VideoCache.getCacheSize
       (VideoCache.insertAll VideoCache.empty
          (VideoCache.mkInsertion 0 "" "u" :: VideoCache.fill 0 50 1))
     = 51%nat.
Proof. vm_compute. repeat split. Qed.

(** ** Announcements and the random draw *)

(** C9, as stated, fails. With one announcement, the same content and the
    same single tick of the auto-advance interval, a draw of 0.1 selects
    the announcement and a draw of 0.9 selects the next content item. *)
Lemma auto_advance_depends_on_draw :
  TVBoxDisplay.shown tvScenarioA [notice] (fun _ => 1 # 10)
                     (TVBoxDisplay.initialCursor, 0%nat) [TVBoxDisplay.AutoAdvanceTick]
  = [TVBoxDisplay.ShowAnnouncement notice]
  /\ TVBoxDisplay.shown tvScenarioA [notice] (fun _ => 9 # 10)
                        (TVBoxDisplay.initialCursor, 0%nat) [TVBoxDisplay.AutoAdvanceTick]
     = [TVBoxDisplay.ShowContent contentB]
  /\ TVBoxDisplay.shown tvScenarioA [notice] (fun _ => 1 # 10)
                        (TVBoxDisplay.initialCursor, 0%nat) [TVBoxDisplay.AutoAdvanceTick]
     <> TVBoxDisplay.shown tvScenarioA [notice] (fun _ => 9 # 10)
                           (TVBoxDisplay.initialCursor, 0%nat) [TVBoxDisplay.AutoAdvanceTick].
Proof. split; [reflexivity |]. split; [reflexivity | discriminate]. Qed.

Lemma autoAdvance_same_side
      (content : list TVBoxDisplay.ContentItem)
      (announcements : list TVBoxDisplay.Announcement)
      (random1 random2 : nat -> Q) (calls : nat) (c : TVBoxDisplay.Cursor) :
  announcements = []
  \/ (forall n, TVBoxDisplay.below_threshold (random1 n)
                = TVBoxDisplay.below_threshold (random2 n)) ->
  TVBoxDisplay.autoAdvance content announcements random1 calls c
  = TVBoxDisplay.autoAdvance content announcements random2 calls c.
Proof.
  intros H. unfold TVBoxDisplay.autoAdvance.
  destruct (TVBoxDisplay.showingAnnouncement c); [reflexivity |].
  destruct announcements as [| a r]; [reflexivity |].
  destruct H as [H | H]; [discriminate |].
  now rewrite (H calls).
Qed.

Lemma step_same_side
      (content : list TVBoxDisplay.ContentItem)
      (announcements : list TVBoxDisplay.Announcement)
      (random1 random2 : nat -> Q) (s : TVBoxDisplay.Cursor * nat)
      (e : TVBoxDisplay.Event) :
  announcements = []
  \/ (forall n, TVBoxDisplay.below_threshold (random1 n)
                = TVBoxDisplay.below_threshold (random2 n)) ->
  TVBoxDisplay.step content announcements random1 s e
  = TVBoxDisplay.step content announcements random2 s e.
Proof.
  intros H. destruct s as [c calls]. destruct e; try reflexivity.
  simpl. rewrite (autoAdvance_same_side content announcements random1 random2 calls c H).
  reflexivity.
Qed.

(** C9, amended. The content-advance logic draws a random number in one
    place: the auto-advance tick of TVBoxDisplay, while content is shown
    and there are announcements, shows an announcement instead of
    advancing when [Math.random()] is below 0.3. Two runs on the same
    content, the same announcements and the same events select the same
    sequence for display whenever there are no announcements or their
    draws fall on the same side of 0.3 each time. *)
Theorem shown_sequence_determined_up_to_draws
        (content : list TVBoxDisplay.ContentItem)
        (announcements : list TVBoxDisplay.Announcement)
        (random1 random2 : nat -> Q) (es : list TVBoxDisplay.Event)
        (s : TVBoxDisplay.Cursor * nat) :
  announcements = []
  \/ (forall n, TVBoxDisplay.below_threshold (random1 n)
                = TVBoxDisplay.below_threshold (random2 n)) ->
  TVBoxDisplay.shown content announcements random1 s es
  = TVBoxDisplay.shown content announcements random2 s es.
Proof.
  intros H. revert s. induction es as [| e es IH]; intros s; [reflexivity |].
  simpl. rewrite (step_same_side content announcements random1 random2 s e H).
  now rewrite IH.
Qed.

Lemma shown_sequence_determined_up_to_draws_witness :
  TVBoxDisplay.shown tvScenarioA [notice] (fun _ => 4 # 10)
                     (TVBoxDisplay.initialCursor, 0%nat)
                     [TVBoxDisplay.AutoAdvanceTick; TVBoxDisplay.AutoAdvanceTick]
  = TVBoxDisplay.shown tvScenarioA [notice] (fun _ => 9 # 10)
                       (TVBoxDisplay.initialCursor, 0%nat)
                       [TVBoxDisplay.AutoAdvanceTick; TVBoxDisplay.AutoAdvanceTick].
Proof.
  apply (shown_sequence_determined_up_to_draws tvScenarioA [notice]
           (fun _ => 4 # 10) (fun _ => 9 # 10)).
  right. intros n. reflexivity.
Defined.

(** * Further properties of the modelled code *)

(** ** The video cache as a map *)

Lemma map_get_set_same (k : string) (v : VideoCache.CachedVideo) (m : VideoCache.JsMap) :
  VideoCache.map_get k (VideoCache.map_set k v m) = Some v.
Proof.
  unfold VideoCache.map_get.
  induction m as [| [k' v'] r IH]; simpl.
  - now rewrite String.eqb_refl.
  - destruct (k' === k) eqn:E; simpl.
    + now rewrite String.eqb_refl.
    + rewrite E. exact IH.
Qed.

Lemma map_get_set_other (k k' : string) (v : VideoCache.CachedVideo) (m : VideoCache.JsMap) :
  k <> k' ->
  VideoCache.map_get k' (VideoCache.map_set k v m) = VideoCache.map_get k' m.
Proof.
  intros Hne. unfold VideoCache.map_get.
  induction m as [| [k0 v0] r IH]; simpl.
  - apply String.eqb_neq in Hne. now rewrite Hne.
  - destruct (k0 === k) eqn:E; simpl.
    + apply String.eqb_eq in E. subst k0.
      apply String.eqb_neq in Hne. now rewrite Hne.
    + destruct (k0 === k'); [reflexivity | exact IH].
Qed.

Lemma map_get_delete_same (k : string) (m : VideoCache.JsMap) :
  VideoCache.map_get k (VideoCache.map_delete k m) = None.
Proof.
  unfold VideoCache.map_get, VideoCache.map_delete.
  induction m as [| [k' v'] r IH]; simpl; [reflexivity |].
  destruct (k' === k) eqn:E; simpl; [exact IH |].
  rewrite E. exact IH.
Qed.

Lemma map_get_delete_other (k k' : string) (m : VideoCache.JsMap) :
  k <> k' ->
  VideoCache.map_get k' (VideoCache.map_delete k m) = VideoCache.map_get k' m.
Proof.
  intros Hne. unfold VideoCache.map_get, VideoCache.map_delete.
  induction m as [| [k0 v0] r IH]; simpl; [reflexivity |].
  destruct (k0 === k) eqn:E; simpl.
  - apply String.eqb_eq in E. subst k0.
    apply String.eqb_neq in Hne. rewrite Hne. exact IH.
  - destruct (k0 === k'); [reflexivity | exact IH].
Qed.

Lemma map_set_not_empty (k : string) (v : VideoCache.CachedVideo) (m : VideoCache.JsMap) :
  VideoCache.map_set k v m <> [].
Proof. destruct m as [| [k' v'] r]; simpl; [| destruct (k' === k)]; discriminate. Qed.

Lemma cacheVideo_not_empty
      (now : Z) (id url : string) (md : option VideoCache.Metadata) (c : VideoCache.t) :
  VideoCache.cache (VideoCache.cacheVideo now id url md c) <> [].
Proof. unfold VideoCache.cacheVideo. cbn [VideoCache.cache]. apply map_set_not_empty. Qed.

Lemma cacheVideo_get_same
      (now : Z) (id url : string) (md : option VideoCache.Metadata) (c : VideoCache.t) :
  VideoCache.map_get id (VideoCache.cache (VideoCache.cacheVideo now id url md c))
  = Some (VideoCache.mkVideo id url now md).
Proof. unfold VideoCache.cacheVideo. cbn [VideoCache.cache]. apply map_get_set_same. Qed.

Lemma getCachedVideo_loaded (now : Z) (id : string) (c : VideoCache.t) :
  VideoCache.cache c <> [] ->
  VideoCache.getCachedVideo now id c
  = match VideoCache.map_get id (VideoCache.cache c) with
    | None => (None, c)
    | Some cached =>
        if VideoCache.isExpired now cached
        then (None, VideoCache.updateStorage
                      {| VideoCache.cache := VideoCache.map_delete id (VideoCache.cache c);
                         VideoCache.video_cache := VideoCache.video_cache c |})
        else (Some cached, c)
    end.
Proof.
  intros Hne. unfold VideoCache.getCachedVideo.
  destruct c as [m st]. cbn [VideoCache.cache VideoCache.video_cache] in *.
  destruct m as [| kv r]; [congruence | reflexivity].
Qed.



(** X2. A video looked up more than 30 minutes after it was cached is
    reported as missing, and the lookup deletes it from the map and
    writes the map without it to the local storage. *)
Theorem cached_video_expires_on_lookup
        (now now' : Z) (id url : string) (md : option VideoCache.Metadata)
        (c : VideoCache.t) :
  VideoCache.CACHE_DURATION < now' - now ->
  let r := VideoCache.getCachedVideo now' id (VideoCache.cacheVideo now id url md c) in
  fst r = None
  /\ VideoCache.map_get id (VideoCache.cache (snd r)) = None
  /\ VideoCache.cache (snd r)
     = VideoCache.map_delete id (VideoCache.cache (VideoCache.cacheVideo now id url md c))
  /\ VideoCache.video_cache (snd r) = Some (VideoCache.cache (snd r)).
Proof.
  intros Hold r. subst r.
  rewrite getCachedVideo_loaded by apply cacheVideo_not_empty.
  rewrite cacheVideo_get_same.
  unfold VideoCache.isExpired. cbn [VideoCache.cachedAt].
  destruct (Z.ltb_spec VideoCache.CACHE_DURATION (now' - now)); [| lia].
  cbn [fst snd VideoCache.updateStorage VideoCache.cache VideoCache.video_cache].
  repeat split. apply map_get_delete_same.
Qed.

Lemma cached_video_expires_on_lookup_witness :
  fst (VideoCache.getCachedVideo (30 * 60 * 1000 + 1) "v1"
         (VideoCache.cacheVideo 0 "v1" "u" None VideoCache.empty))
  = None.
Proof.
  exact (proj1 (cached_video_expires_on_lookup 0 (30 * 60 * 1000 + 1) "v1" "u" None
                  VideoCache.empty ltac:(vm_compute; reflexivity))).
Defined.

Lemma map_delete_absent (k : string) (m : VideoCache.JsMap) :
  ~ In k (VideoCache.keys m) -> VideoCache.map_delete k m = m.
Proof.
  unfold VideoCache.map_delete, VideoCache.keys.
  induction m as [| [k' v'] r IH]; intros Hnot; [reflexivity |].
  simpl in *. destruct (String.eqb_spec k' k) as [-> | Hne].
  - exfalso. apply Hnot. now left.
  - simpl. f_equal. apply IH. intros Hin. apply Hnot. now right.
Qed.



Lemma keys_map_set_present (k : string) (v : VideoCache.CachedVideo) (m : VideoCache.JsMap) :
  In k (VideoCache.keys m) ->
  VideoCache.keys (VideoCache.map_set k v m) = VideoCache.keys m.
Proof.
  unfold VideoCache.keys.
  induction m as [| [k' v'] r IH]; simpl; [tauto |].
  intros Hin. destruct (String.eqb_spec k' k) as [-> | Hne]; [reflexivity |].
  simpl. f_equal. apply IH. destruct Hin; [contradiction | assumption].
Qed.




Lemma uniqueKeys_NoDup (m : VideoCache.JsMap) :
  VideoCache.uniqueKeys m = true -> NoDup (VideoCache.keys m).
Proof.
  induction m as [| [k v] r IH]; simpl; intros H; [constructor |].
  apply andb_true_iff in H as [Hk Hr].
  constructor; [| now apply IH].
  intros Hin. apply negb_true_iff in Hk.
  assert (existsb (String.eqb k) (VideoCache.keys r) = true) as E.
  { apply existsb_exists. exists k. split; [exact Hin | apply String.eqb_refl]. }
  congruence.
Qed.

(** X3. At capacity the insertion of a video drops the entry whose key
    was inserted first and nothing else: what remains is the rest of the
    map in its order, with the video set in it; the dropped key is gone
    unless it is the one being cached, and every other key keeps its
    entry. *)
Theorem insertion_at_capacity_drops_first_key
        (now : Z) (id url : string) (md : option VideoCache.Metadata)
        (c : VideoCache.t) (k : string) (v0 : VideoCache.CachedVideo)
        (rest : VideoCache.JsMap) :
  VideoCache.cache c = (k, v0) :: rest ->
  JS.truthy_str k = true ->
  NoDup (VideoCache.keys (VideoCache.cache c)) ->
  (VideoCache.MAX_CACHE_SIZE <= List.length (VideoCache.cache c))%nat ->
  VideoCache.cache (VideoCache.cacheVideo now id url md c)
  = VideoCache.map_set id (VideoCache.mkVideo id url now md) rest
  /\ (k <> id ->
      VideoCache.map_get k (VideoCache.cache (VideoCache.cacheVideo now id url md c)) = None)
  /\ (forall k', k' <> k -> k' <> id ->
      VideoCache.map_get k' (VideoCache.cache (VideoCache.cacheVideo now id url md c))
      = VideoCache.map_get k' (VideoCache.cache c)).
Proof.
  intros Hc Hk Hnd Hfull.
  assert (Hdel : VideoCache.map_delete k (VideoCache.cache c) = rest).
  { rewrite Hc in *. unfold VideoCache.map_delete. cbn [filter fst].
    rewrite String.eqb_refl. cbn [negb].
    apply map_delete_absent. now inversion Hnd. }
  assert (Hcache : VideoCache.cache (VideoCache.cacheVideo now id url md c)
                   = VideoCache.map_set id (VideoCache.mkVideo id url now md) rest).
  { unfold VideoCache.cacheVideo. cbn [VideoCache.cache].
    destruct (Nat.leb_spec VideoCache.MAX_CACHE_SIZE (List.length (VideoCache.cache c)));
      [| lia].
    rewrite Hc at 1. cbn [VideoCache.first_key]. now rewrite Hk, Hdel. }
  split; [exact Hcache |]. rewrite Hcache. split.
  - intros Hne. rewrite map_get_set_other by congruence.
    rewrite <- Hdel. apply map_get_delete_same.
  - intros k' Hk' Hid. rewrite map_get_set_other by congruence.
    rewrite <- Hdel. now apply map_get_delete_other.
Qed.

Lemma insertion_at_capacity_drops_first_key_witness :
  VideoCache.map_get (VideoCache.vid 0)
    (VideoCache.cache (VideoCache.cacheVideo 50 (VideoCache.vid 50) "u" None fullCache))
  = None.
Proof.
  refine (proj1 (proj2
    (insertion_at_capacity_drops_first_key 50 (VideoCache.vid 50) "u" None fullCache
       (VideoCache.vid 0) (VideoCache.mkVideo (VideoCache.vid 0) "u" 0 None)
       (tl (VideoCache.cache fullCache)) _ _ _ _)) _).
  - vm_compute. reflexivity.
  - reflexivity.
  - apply uniqueKeys_NoDup. vm_compute. reflexivity.
  - vm_compute. repeat constructor.
  - vm_compute. discriminate.
Defined.

(** X4. Below capacity, caching a video that is already in the cache
    keeps every key at its place in the insertion order and keeps the
    size; only the entry of that video changes, to the new URL and time. *)
Theorem recaching_keeps_insertion_order
        (now : Z) (id url : string) (md : option VideoCache.Metadata) (c : VideoCache.t) :
  (List.length (VideoCache.cache c) < VideoCache.MAX_CACHE_SIZE)%nat ->
  In id (VideoCache.keys (VideoCache.cache c)) ->
  VideoCache.keys (VideoCache.cache (VideoCache.cacheVideo now id url md c))
  = VideoCache.keys (VideoCache.cache c)
  /\ VideoCache.getCacheSize (VideoCache.cacheVideo now id url md c)
     = VideoCache.getCacheSize c
  /\ VideoCache.map_get id (VideoCache.cache (VideoCache.cacheVideo now id url md c))
     = Some (VideoCache.mkVideo id url now md)
  /\ (forall k', k' <> id ->
      VideoCache.map_get k' (VideoCache.cache (VideoCache.cacheVideo now id url md c))
      = VideoCache.map_get k' (VideoCache.cache c)).
Proof.
  intros Hroom Hin.
  assert (Hcache : VideoCache.cache (VideoCache.cacheVideo now id url md c)
                   = VideoCache.map_set id (VideoCache.mkVideo id url now md)
                                        (VideoCache.cache c)).
  { unfold VideoCache.cacheVideo. cbn [VideoCache.cache].
    destruct (Nat.leb_spec VideoCache.MAX_CACHE_SIZE (List.length (VideoCache.cache c)));
      [lia | reflexivity]. }
  assert (Hkeys : VideoCache.keys (VideoCache.cache (VideoCache.cacheVideo now id url md c))
                  = VideoCache.keys (VideoCache.cache c)).
  { rewrite Hcache. now apply keys_map_set_present. }
  split; [exact Hkeys |]. split.
  - unfold VideoCache.getCacheSize.
    rewrite <- (length_map fst (VideoCache.cache (VideoCache.cacheVideo now id url md c))).
    rewrite <- (length_map fst (VideoCache.cache c)).
    unfold VideoCache.keys in Hkeys. now rewrite Hkeys.
  - split; [apply cacheVideo_get_same |].
    intros k' Hne. rewrite Hcache. apply map_get_set_other. congruence.
Qed.

Lemma recaching_keeps_insertion_order_witness :
  VideoCache.keys
    (VideoCache.cache
       (VideoCache.cacheVideo 9 "a" "u2" None
          (VideoCache.insertAll VideoCache.empty
             [VideoCache.mkInsertion 0 "a" "u"; VideoCache.mkInsertion 1 "b" "u"])))
  = ["a"; "b"].
Proof.
  rewrite (proj1 (recaching_keeps_insertion_order 9 "a" "u2" None
                    (VideoCache.insertAll VideoCache.empty
                       [VideoCache.mkInsertion 0 "a" "u"; VideoCache.mkInsertion 1 "b" "u"])
                    ltac:(vm_compute; lia) ltac:(vm_compute; tauto))).
  reflexivity.
Defined.

Lemma fold_map_delete (ks : list string) (m : VideoCache.JsMap) :
  fold_left (fun m k => VideoCache.map_delete k m) ks m
  = filter (fun kv => negb (existsb (String.eqb (fst kv)) ks)) m.
Proof.
  revert m. induction ks as [| k ks IH]; intros m.
  - simpl. induction m as [| kv r IHm]; [reflexivity |]. simpl. now rewrite <- IHm.
  - simpl. rewrite IH. unfold VideoCache.map_delete.
    induction m as [| kv r IHm]; [reflexivity |].
    simpl. destruct (fst kv === k) eqn:E; simpl.
    + exact IHm.
    + destruct (existsb (String.eqb (fst kv)) ks); simpl; [exact IHm | now rewrite IHm].
Qed.

Lemma unique_key_entry (m : VideoCache.JsMap) (kv kv' : string * VideoCache.CachedVideo) :
  NoDup (VideoCache.keys m) -> In kv m -> In kv' m -> fst kv = fst kv' -> kv = kv'.
Proof.
  unfold VideoCache.keys.
  induction m as [| x r IH]; intros Hnd Hin Hin' Hfst; [contradiction |].
  inversion Hnd as [| ? ? Hnotin Hrest]; subst.
  destruct Hin as [-> | Hin], Hin' as [-> | Hin'].
  - reflexivity.
  - exfalso. apply Hnotin. rewrite Hfst. now apply in_map.
  - exfalso. apply Hnotin. rewrite <- Hfst. now apply in_map.
  - now apply IH.
Qed.

Lemma expired_keys_filter (now : Z) (m : VideoCache.JsMap) :
  NoDup (VideoCache.keys m) ->
  filter (fun kv =>
            negb (existsb (String.eqb (fst kv))
                    (map fst (filter (fun kv => VideoCache.isExpired now (snd kv)) m)))) m
  = filter (fun kv => negb (VideoCache.isExpired now (snd kv))) m.
Proof.
  intros Hnd. apply filter_ext_in. intros kv Hin. f_equal.
  destruct (VideoCache.isExpired now (snd kv)) eqn:Hexp.
  - apply existsb_exists. exists (fst kv). split; [| apply String.eqb_refl].
    apply in_map, filter_In. now split.
  - apply not_true_is_false. intros Hex.
    apply existsb_exists in Hex as [k [Hk Heq]].
    apply String.eqb_eq in Heq. subst k.
    apply in_map_iff in Hk as [kv' [Hfst Hin']].
    apply filter_In in Hin' as [Hin' Hexp'].
    assert (kv' = kv) by (apply (unique_key_entry m); auto).
    subst kv'. congruence.
Qed.

Lemma clearExpiredCache_cache (now : Z) (c : VideoCache.t) :
  NoDup (VideoCache.keys (VideoCache.cache c)) ->
  VideoCache.cache (VideoCache.clearExpiredCache now c)
  = filter (fun kv => negb (VideoCache.isExpired now (snd kv))) (VideoCache.cache c).
Proof.
  intros Hnd. unfold VideoCache.clearExpiredCache.
  rewrite <- (expired_keys_filter now (VideoCache.cache c) Hnd).
  rewrite <- fold_map_delete.
  now destruct (map fst (filter (fun kv => VideoCache.isExpired now (snd kv))
                                (VideoCache.cache c))).
Qed.

(** X5. [clearExpiredCache] removes exactly the entries cached more than
    30 minutes before: the map afterwards holds the other entries in their
    order and none that is expired. The local storage is rewritten with
    that map if some entry was removed and is left alone otherwise. *)
Theorem clearExpiredCache_removes_exactly_expired (now : Z) (c : VideoCache.t) :
  NoDup (VideoCache.keys (VideoCache.cache c)) ->
  VideoCache.cache (VideoCache.clearExpiredCache now c)
  = filter (fun kv => negb (VideoCache.isExpired now (snd kv))) (VideoCache.cache c)
  /\ Forall (fun kv => now - VideoCache.cachedAt (snd kv) <= VideoCache.CACHE_DURATION)
            (VideoCache.cache (VideoCache.clearExpiredCache now c))
  /\ VideoCache.video_cache (VideoCache.clearExpiredCache now c)
     = if existsb (fun kv => VideoCache.isExpired now (snd kv)) (VideoCache.cache c)
       then Some (VideoCache.cache (VideoCache.clearExpiredCache now c))
       else VideoCache.video_cache c.
Proof.
  intros Hnd. pose proof (clearExpiredCache_cache now c Hnd) as Hcache.
  split; [exact Hcache |]. split.
  - rewrite Hcache. apply Forall_forall. intros kv Hin.
    apply filter_In in Hin as [_ Hfresh]. apply negb_true_iff in Hfresh.
    unfold VideoCache.isExpired in Hfresh.
    destruct (Z.ltb_spec VideoCache.CACHE_DURATION (now - VideoCache.cachedAt (snd kv)));
      [discriminate | lia].
  - unfold VideoCache.clearExpiredCache.
    destruct (filter (fun kv => VideoCache.isExpired now (snd kv)) (VideoCache.cache c))
      as [| e es] eqn:Ef.
    + simpl. replace (existsb _ (VideoCache.cache c)) with false; [reflexivity |].
      symmetry. apply not_true_is_false. intros Hex.
      apply existsb_exists in Hex as [kv [Hin Hexp]].
      assert (In kv []) as Hnil by (rewrite <- Ef; apply filter_In; now split).
      contradiction.
    + replace (existsb _ (VideoCache.cache c)) with true; [reflexivity |].
      symmetry. apply existsb_exists. exists e.
      assert (In e (e :: es)) as Hin by now left.
      rewrite <- Ef in Hin. now apply filter_In in Hin.
Qed.

Lemma clearExpiredCache_removes_exactly_expired_witness :
  VideoCache.keys
    (VideoCache.cache
       (VideoCache.clearExpiredCache (30 * 60 * 1000 + 5)
          (VideoCache.insertAll VideoCache.empty
             [VideoCache.mkInsertion 0 "a" "u"; VideoCache.mkInsertion 10 "b" "u"])))
  = ["b"].
Proof.
  rewrite (proj1 (clearExpiredCache_removes_exactly_expired (30 * 60 * 1000 + 5)
                    (VideoCache.insertAll VideoCache.empty
                       [VideoCache.mkInsertion 0 "a" "u"; VideoCache.mkInsertion 10 "b" "u"])
                    ltac:(apply uniqueKeys_NoDup; vm_compute; reflexivity))).
  reflexivity.
Defined.




(** X7. Starting from the empty cache, any sequence of insertions whose
    identifiers are not the empty string leaves at most 50 entries. *)
Theorem cache_size_bounded_for_nonempty_ids (calls : list VideoCache.Insertion) :
  Forall (fun i => JS.truthy_str (VideoCache.ins_id i) = true) calls ->
  (VideoCache.getCacheSize (VideoCache.insertAll VideoCache.empty calls)
   <= VideoCache.MAX_CACHE_SIZE)%nat.
Proof.
  intros Hcalls. apply insertAll_bounded; [exact Hcalls | constructor |].
  unfold VideoCache.MAX_CACHE_SIZE. simpl. lia.
Qed.

Lemma cache_size_bounded_for_nonempty_ids_witness :
  (VideoCache.getCacheSize (VideoCache.insertAll VideoCache.empty (VideoCache.fill 0 60 0))
   <= VideoCache.MAX_CACHE_SIZE)%nat.
Proof.
  apply cache_size_bounded_for_nonempty_ids.
  vm_compute. repeat constructor.
Defined.

(** ** The scheduler of TVBoxDisplay *)

(** X8. Moving to the next item and then to the previous one, or the
    other way round, comes back to the same index of a non-empty content
    list. *)
Theorem next_and_previous_are_inverse
        (content : list TVBoxDisplay.ContentItem) (i : Z) :
  0 <= i < Z.of_nat (List.length content) ->
  TVBoxDisplay.goToPrevious content (TVBoxDisplay.goToNext content (JS.Num i)) = JS.Num i
  /\ TVBoxDisplay.goToNext content (TVBoxDisplay.goToPrevious content (JS.Num i)) = JS.Num i.
Proof.
  intros Hi. set (n := Z.of_nat (List.length content)) in *.
  assert (Hn : 0 < n) by lia.
  split.
  - rewrite goToNext_in_range by exact Hi. fold n.
    rewrite goToPrevious_in_range by (fold n; apply mod_in_range; lia). fold n.
    f_equal. destruct (Z.eq_dec (i + 1) n) as [E | E].
    + rewrite E, Z.mod_same by lia. rewrite Z.mod_small by lia. lia.
    + rewrite (Z.mod_small (i + 1) n) by lia.
      replace (i + 1 - 1 + n) with (i + 1 * n) by lia.
      rewrite Z.mod_add by lia. apply Z.mod_small. lia.
  - rewrite goToPrevious_in_range by exact Hi. fold n.
    rewrite goToNext_in_range by (fold n; apply mod_in_range; lia). fold n.
    f_equal. destruct (Z.eq_dec i 0) as [E | E].
    + subst i. rewrite (Z.mod_small (0 - 1 + n) n) by lia.
      replace (0 - 1 + n + 1) with n by lia. apply Z.mod_same. lia.
    + replace (i - 1 + n) with (i - 1 + 1 * n) by lia.
      rewrite Z.mod_add by lia. rewrite (Z.mod_small (i - 1) n) by lia.
      replace (i - 1 + 1) with i by lia. apply Z.mod_small. lia.
Qed.

Lemma next_and_previous_are_inverse_witness :
  TVBoxDisplay.goToPrevious tvScenarioA (TVBoxDisplay.goToNext tvScenarioA (JS.Num 1))
  = JS.Num 1.
Proof.
  exact (proj1 (next_and_previous_are_inverse tvScenarioA 1 ltac:(simpl; lia))).
Defined.

Lemma autoAdvance_keeps_range
      (content : list TVBoxDisplay.ContentItem)
      (announcements : list TVBoxDisplay.Announcement)
      (random : nat -> Q) (calls : nat) (c : TVBoxDisplay.Cursor) :
  TVBoxDisplay.cursorInRange content announcements c ->
  TVBoxDisplay.cursorInRange content announcements
    (fst (TVBoxDisplay.autoAdvance content announcements random calls c)).
Proof.
  intros [[i [Hi Ri]] Hann]. destruct c as [idx showing annIdx].
  cbn [TVBoxDisplay.currentIndex TVBoxDisplay.showingAnnouncement
       TVBoxDisplay.currentAnnouncementIndex] in *.
  subst idx.
  assert (Hadv : exists i',
             match content with
             | [] => JS.Num i
             | _ :: _ => JS.rem (JS.add (JS.Num i) (JS.Num 1)) (JS.length content)
             end = JS.Num i' /\ 0 <= i' < Z.of_nat (List.length content)).
  { destruct content as [| c0 cr]; [simpl in Ri; lia |].
    unfold JS.length. rewrite rem_succ_in_range by exact Ri.
    eexists; split; [reflexivity | apply mod_in_range; lia]. }
  destruct Hadv as [i' [Ei' Ri']].
  unfold TVBoxDisplay.autoAdvance.
  cbn [TVBoxDisplay.currentIndex TVBoxDisplay.showingAnnouncement
       TVBoxDisplay.currentAnnouncementIndex].
  destruct showing.
  - destruct (Hann eq_refl) as [j [Ej Rj]]. subst annIdx.
    unfold TVBoxDisplay.js_lt, JS.sub, JS.length, JS.add.
    destruct (Z.ltb_spec j (Z.of_nat (List.length announcements) - 1)).
    + split; cbn; [exists i; now split |].
      intros _. exists (j + 1). split; [reflexivity | lia].
    + split; cbn; [| discriminate].
      exists i'. split; [| exact Ri'].
      destruct content; exact Ei'.
  - destruct announcements as [| a r].
    + destruct content as [| c0 cr]; [simpl in Ri; lia |].
      split; cbn; [| discriminate]. exists i'. now split.
    + destruct (TVBoxDisplay.below_threshold (random calls)).
      * split; cbn; [exists i; now split |].
        intros _. exists 0. split; [reflexivity | simpl; lia].
      * destruct content as [| c0 cr]; [simpl in Ri; lia |].
        split; cbn; [| discriminate]. exists i'. now split.
Qed.

Lemma setIndex_keeps_range
      (content : list TVBoxDisplay.ContentItem)
      (announcements : list TVBoxDisplay.Announcement)
      (f : JS.num -> JS.num) (c : TVBoxDisplay.Cursor) :
  (forall i, 0 <= i < Z.of_nat (List.length content) ->
             exists i', f (JS.Num i) = JS.Num i'
                        /\ 0 <= i' < Z.of_nat (List.length content)) ->
  TVBoxDisplay.cursorInRange content announcements c ->
  TVBoxDisplay.cursorInRange content announcements (TVBoxDisplay.setIndex f c).
Proof.
  intros Hf [[i [Hi Ri]] Hann]. split; cbn.
  - rewrite Hi. now apply Hf.
  - exact Hann.
Qed.

Lemma goToNext_keeps_range (content : list TVBoxDisplay.ContentItem) (i : Z) :
  0 <= i < Z.of_nat (List.length content) ->
  exists i', TVBoxDisplay.goToNext content (JS.Num i) = JS.Num i'
             /\ 0 <= i' < Z.of_nat (List.length content).
Proof.
  intros Ri. rewrite goToNext_in_range by exact Ri.
  eexists; split; [reflexivity | apply mod_in_range; lia].
Qed.

Lemma tvbox_step_keeps_range
      (content : list TVBoxDisplay.ContentItem)
      (announcements : list TVBoxDisplay.Announcement)
      (random : nat -> Q) (s : TVBoxDisplay.Cursor * nat) (e : TVBoxDisplay.Event) :
  TVBoxDisplay.cursorInRange content announcements (fst s) ->
  TVBoxDisplay.cursorInRange content announcements
    (fst (TVBoxDisplay.step content announcements random s e)).
Proof.
  destruct s as [c calls]. cbn [fst]. intros Hc.
  destruct e as [| | | | cmd]; unfold TVBoxDisplay.step.
  - destruct content as [| c0 cr]; [destruct announcements |];
      try (now apply autoAdvance_keeps_range); exact Hc.
  - destruct (TVBoxDisplay.imageInterval content (TVBoxDisplay.currentIndex c));
      [| exact Hc].
    apply setIndex_keeps_range; [apply goToNext_keeps_range | exact Hc].
  - destruct (TVBoxDisplay.rendersVideo content c); [| exact Hc].
    apply setIndex_keeps_range; [apply goToNext_keeps_range | exact Hc].
  - apply setIndex_keeps_range; [apply goToNext_keeps_range | exact Hc].
  - apply setIndex_keeps_range; [| exact Hc].
    intros i Ri. now apply tvbox_command_in_range.
Qed.

Lemma displayContent_in_range
      (content : list TVBoxDisplay.ContentItem)
      (announcements : list TVBoxDisplay.Announcement) (c : TVBoxDisplay.Cursor) :
  TVBoxDisplay.cursorInRange content announcements c ->
  TVBoxDisplay.showsListed content announcements
    (TVBoxDisplay.displayContent content announcements c).
Proof.
  intros [[i [Hi Ri]] Hann]. unfold TVBoxDisplay.displayContent.
  assert (Hcontent :
            TVBoxDisplay.showsListed content announcements
              match JS.get content (TVBoxDisplay.currentIndex c) with
              | Some item => TVBoxDisplay.ShowContent item
              | None => TVBoxDisplay.ContentNotFound
              end).
  { rewrite Hi. unfold JS.get. destruct (Z.ltb_spec i 0); [lia |].
    destruct (nth_error content (Z.to_nat i)) as [item |] eqn:En.
    - simpl. now apply nth_error_In in En.
    - apply nth_error_None in En. lia. }
  destruct (TVBoxDisplay.showingAnnouncement c) eqn:Hs.
  - destruct (Hann eq_refl) as [j [Hj Rj]].
    destruct announcements as [| a r]; [simpl in Rj; lia |].
    rewrite Hj. unfold JS.get. destruct (Z.ltb_spec j 0); [lia |].
    destruct (nth_error (a :: r) (Z.to_nat j)) as [a' |] eqn:En.
    + simpl. now apply nth_error_In in En.
    + apply nth_error_None in En. lia.
  - destruct content as [| c0 cr]; [simpl in Ri; lia |].
    now destruct announcements.
Qed.

(** X10. On fixed non-empty content, from a cursor that points into the
    lists (as the initial one does), every event of the scheduler (the
    auto-advance tick with any random draw, the image interval, the end
    or error of a video, any remote command) leaves a cursor that points
    into the lists, so what is selected for display after each event of a
    run is an announcement of the list or an item of the content, never
    "Content not found" or "No content available". *)
Theorem display_always_selects_listed_entry
        (content : list TVBoxDisplay.ContentItem)
        (announcements : list TVBoxDisplay.Announcement)
        (random : nat -> Q) (es : list TVBoxDisplay.Event)
        (s : TVBoxDisplay.Cursor * nat) :
  TVBoxDisplay.cursorInRange content announcements (fst s) ->
  Forall (TVBoxDisplay.showsListed content announcements)
         (TVBoxDisplay.shown content announcements random s es).
Proof.
  revert s. induction es as [| e es IH]; intros s Hs; [constructor |].
  simpl. pose proof (tvbox_step_keeps_range content announcements random s e Hs) as Hs'.
  constructor; [now apply displayContent_in_range | now apply IH].
Qed.

Lemma display_always_selects_listed_entry_witness :
  Forall (TVBoxDisplay.showsListed tvScenarioA [notice])
         (TVBoxDisplay.shown tvScenarioA [notice] (fun _ => 1 # 10)
            (TVBoxDisplay.initialCursor, 0%nat)
            [TVBoxDisplay.AutoAdvanceTick; TVBoxDisplay.AutoAdvanceTick;
             TVBoxDisplay.Remote (command "previous")]).
Proof.
  apply display_always_selects_listed_entry.
  split; cbn; [exists 0; split; [reflexivity | lia] | discriminate].
Defined.

(** ** Announcement rounds and the render *)

Lemma render_portrait
      (content : list TVBoxDisplay.ContentItem)
      (announcements : list TVBoxDisplay.Announcement) (c : TVBoxDisplay.Cursor) :
  TVBoxDisplay.render TVBoxDisplay.portrait content announcements c
  = TVBoxDisplay.Screen (TVBoxDisplay.displayContent content announcements c).
Proof.
  unfold TVBoxDisplay.render.
  destruct (TVBoxDisplay.displayContent content announcements c);
    cbn; now rewrite ?andb_false_r.
Qed.

Lemma runMounted_app
      (layout : TVBoxDisplay.AspectRatio) (content : list TVBoxDisplay.ContentItem)
      (announcements : list TVBoxDisplay.Announcement) (random : nat -> Q)
      (es1 es2 : list TVBoxDisplay.Event) :
  forall s : TVBoxDisplay.Cursor * nat,
    TVBoxDisplay.runMounted layout content announcements random s (es1 ++ es2)%list
    = match TVBoxDisplay.runMounted layout content announcements random s es1 with
      | Some s1 => TVBoxDisplay.runMounted layout content announcements random s1 es2
      | None => None
      end.
Proof.
  induction es1 as [| e es1 IH]; intros s; [reflexivity |].
  cbn [app TVBoxDisplay.runMounted].
  destruct (TVBoxDisplay.render layout content announcements
              (fst (TVBoxDisplay.step content announcements random s e)));
    [apply IH | reflexivity].
Qed.

(** The events other than the auto-advance tick leave the announcement
    part of the cursor and the count of random draws alone. *)
Lemma other_events_keep_round
      (content : list TVBoxDisplay.ContentItem)
      (announcements : list TVBoxDisplay.Announcement) (random : nat -> Q)
      (c : TVBoxDisplay.Cursor) (calls : nat) (e : TVBoxDisplay.Event) :
  TVBoxDisplay.isTick e = false ->
  exists i',
    TVBoxDisplay.step content announcements random (c, calls) e
    = (TVBoxDisplay.mkCursor i' (TVBoxDisplay.showingAnnouncement c)
         (TVBoxDisplay.currentAnnouncementIndex c), calls).
Proof.
  intros He. destruct c as [i showing annIdx].
  destruct e as [| | | | cmd]; [discriminate | | | |]; cbn [TVBoxDisplay.step].
  - destruct (TVBoxDisplay.imageInterval content
                (TVBoxDisplay.currentIndex (TVBoxDisplay.mkCursor i showing annIdx)));
      eexists; reflexivity.
  - destruct (TVBoxDisplay.rendersVideo content (TVBoxDisplay.mkCursor i showing annIdx));
      eexists; reflexivity.
  - eexists; reflexivity.
  - eexists; reflexivity.
Qed.

(** A tick while an announcement other than the last one is shown moves
    to the next announcement. *)
Lemma tick_within_round
      (content : list TVBoxDisplay.ContentItem)
      (announcements : list TVBoxDisplay.Announcement) (random : nat -> Q)
      (i : JS.num) (a : nat) (calls : nat) :
  (S a < List.length announcements)%nat ->
  TVBoxDisplay.step content announcements random
    (TVBoxDisplay.mkCursor i true (JS.Num (Z.of_nat a)), calls) TVBoxDisplay.AutoAdvanceTick
  = (TVBoxDisplay.mkCursor i true (JS.Num (Z.of_nat (S a))), calls).
Proof.
  intros Ha. destruct announcements as [| a0 r]; [simpl in Ha; lia |].
  unfold TVBoxDisplay.step.
  replace (match content with
           | [] | _ => TVBoxDisplay.autoAdvance content (a0 :: r) random calls
                         (TVBoxDisplay.mkCursor i true (JS.Num (Z.of_nat a)))
           end)
    with (TVBoxDisplay.autoAdvance content (a0 :: r) random calls
            (TVBoxDisplay.mkCursor i true (JS.Num (Z.of_nat a))))
    by now destruct content.
  unfold TVBoxDisplay.autoAdvance.
  cbn [TVBoxDisplay.showingAnnouncement TVBoxDisplay.currentAnnouncementIndex
       TVBoxDisplay.currentIndex].
  unfold TVBoxDisplay.js_lt, JS.sub, JS.length, JS.add.
  destruct (Z.ltb_spec (Z.of_nat a) (Z.of_nat (List.length (a0 :: r)) - 1)); [| lia].
  do 3 f_equal. lia.
Qed.

(** A tick while the last announcement is shown returns to the content,
    one item further. *)
Lemma tick_ends_round
      (content : list TVBoxDisplay.ContentItem)
      (announcements : list TVBoxDisplay.Announcement) (random : nat -> Q)
      (i : JS.num) (a : nat) (calls : nat) :
  S a = List.length announcements ->
  TVBoxDisplay.step content announcements random
    (TVBoxDisplay.mkCursor i true (JS.Num (Z.of_nat a)), calls) TVBoxDisplay.AutoAdvanceTick
  = (TVBoxDisplay.mkCursor (TVBoxDisplay.goToNext content i) false (JS.Num 0), calls).
Proof.
  intros Ha. destruct announcements as [| a0 r]; [discriminate |].
  unfold TVBoxDisplay.step.
  replace (match content with
           | [] | _ => TVBoxDisplay.autoAdvance content (a0 :: r) random calls
                         (TVBoxDisplay.mkCursor i true (JS.Num (Z.of_nat a)))
           end)
    with (TVBoxDisplay.autoAdvance content (a0 :: r) random calls
            (TVBoxDisplay.mkCursor i true (JS.Num (Z.of_nat a))))
    by now destruct content.
  unfold TVBoxDisplay.autoAdvance.
  cbn [TVBoxDisplay.showingAnnouncement TVBoxDisplay.currentAnnouncementIndex
       TVBoxDisplay.currentIndex].
  unfold TVBoxDisplay.js_lt, JS.sub, JS.length.
  destruct (Z.ltb_spec (Z.of_nat a) (Z.of_nat (List.length (a0 :: r)) - 1)); [lia |].
  unfold TVBoxDisplay.goToNext, JS.length. now destruct content.
Qed.

(** A tick while content is shown, with announcements and a draw below
    0.3, starts a round at the first announcement. *)
Lemma tick_starts_round
      (content : list TVBoxDisplay.ContentItem)
      (announcements : list TVBoxDisplay.Announcement) (random : nat -> Q)
      (i annIdx : JS.num) (calls : nat) :
  announcements <> [] ->
  TVBoxDisplay.below_threshold (random calls) = true ->
  TVBoxDisplay.step content announcements random
    (TVBoxDisplay.mkCursor i false annIdx, calls) TVBoxDisplay.AutoAdvanceTick
  = (TVBoxDisplay.mkCursor i true (JS.Num 0), S calls).
Proof.
  intros Hne Hdraw. destruct announcements as [| a0 r]; [congruence |].
  unfold TVBoxDisplay.step.
  replace (match content with
           | [] | _ => TVBoxDisplay.autoAdvance content (a0 :: r) random calls
                         (TVBoxDisplay.mkCursor i false annIdx)
           end)
    with (TVBoxDisplay.autoAdvance content (a0 :: r) random calls
            (TVBoxDisplay.mkCursor i false annIdx))
    by now destruct content.
  unfold TVBoxDisplay.autoAdvance.
  cbn [TVBoxDisplay.showingAnnouncement TVBoxDisplay.currentAnnouncementIndex
       TVBoxDisplay.currentIndex].
  now rewrite Hdraw.
Qed.

Lemma displayContent_announcement
      (content : list TVBoxDisplay.ContentItem)
      (announcements : list TVBoxDisplay.Announcement)
      (i : JS.num) (a : nat) (ann : TVBoxDisplay.Announcement) :
  nth_error announcements a = Some ann ->
  TVBoxDisplay.displayContent content announcements
    (TVBoxDisplay.mkCursor i true (JS.Num (Z.of_nat a)))
  = TVBoxDisplay.ShowAnnouncement ann.
Proof.
  intros Hnth. unfold TVBoxDisplay.displayContent.
  cbn [TVBoxDisplay.showingAnnouncement TVBoxDisplay.currentAnnouncementIndex].
  destruct announcements as [| a0 r]; [now destruct a |].
  unfold JS.get. destruct (Z.ltb_spec (Z.of_nat a) 0); [lia |].
  now rewrite Nat2Z.id, Hnth.
Qed.

(** In the portrait layout a round goes on under any events: after them
    the announcement shown is the one numbered by the ticks among them. *)
Lemma round_in_portrait
      (content : list TVBoxDisplay.ContentItem)
      (announcements : list TVBoxDisplay.Announcement) (random : nat -> Q)
      (calls : nat) (es : list TVBoxDisplay.Event) :
  forall (i : JS.num) (a : nat),
    (a + TVBoxDisplay.ticks es < List.length announcements)%nat ->
    exists i',
      TVBoxDisplay.runMounted TVBoxDisplay.portrait content announcements random
        (TVBoxDisplay.mkCursor i true (JS.Num (Z.of_nat a)), calls) es
      = Some (TVBoxDisplay.mkCursor i' true
                (JS.Num (Z.of_nat (a + TVBoxDisplay.ticks es))), calls).
Proof.
  induction es as [| e es IH]; intros i a Ha.
  - exists i. cbn. now rewrite Nat.add_0_r.
  - cbn [TVBoxDisplay.runMounted]. rewrite render_portrait.
    destruct (TVBoxDisplay.isTick e) eqn:Ht.
    + destruct e; try discriminate.
      assert (Hticks : TVBoxDisplay.ticks (TVBoxDisplay.AutoAdvanceTick :: es)
                       = S (TVBoxDisplay.ticks es)) by reflexivity.
      rewrite Hticks in *.
      rewrite tick_within_round by lia.
      destruct (IH i (S a) ltac:(lia)) as [i' Hrun].
      exists i'. rewrite Hrun. do 4 f_equal. lia.
    + assert (Hticks : TVBoxDisplay.ticks (e :: es) = TVBoxDisplay.ticks es)
        by (unfold TVBoxDisplay.ticks; cbn [filter]; now rewrite Ht).
      rewrite Hticks in *.
      destruct (other_events_keep_round content announcements random
                  (TVBoxDisplay.mkCursor i true (JS.Num (Z.of_nat a))) calls e Ht)
        as [i1 Hstep].
      rewrite Hstep. cbn [TVBoxDisplay.showingAnnouncement
                            TVBoxDisplay.currentAnnouncementIndex].
      apply (IH i1 a Ha).
Qed.

(** X9. When a tick of the auto-advance interval draws below 0.3 while
    content is shown, a round of announcements starts. In the portrait
    layout the round goes on whatever image-interval, video and remote
    events fall into it (they move the content index only): after the
    events [es] the announcement rendered is the one numbered by the
    ticks among them, so the announcements come in the order of the list,
    one per tick, and the round draws no further random number; the tick
    after the last announcement returns to the content, one item after
    the index the other events have reached. In the landscape and square
    layouts the render throws as soon as the round starts, and the
    component is unmounted. *)
Theorem announcement_round_needs_portrait_layout
        (content : list TVBoxDisplay.ContentItem)
        (announcements : list TVBoxDisplay.Announcement)
        (random : nat -> Q) (calls : nat) (i annIdx : JS.num)
        (es : list TVBoxDisplay.Event) :
  let start := (TVBoxDisplay.mkCursor i false annIdx, calls) in
  TVBoxDisplay.below_threshold (random calls) = true ->
  (TVBoxDisplay.ticks es < List.length announcements)%nat ->
  (exists (i' : JS.num) (ann : TVBoxDisplay.Announcement),
      let c' := TVBoxDisplay.mkCursor i' true
                  (JS.Num (Z.of_nat (TVBoxDisplay.ticks es))) in
      TVBoxDisplay.runMounted TVBoxDisplay.portrait content announcements random start
        (TVBoxDisplay.AutoAdvanceTick :: es)
      = Some (c', S calls)
      /\ nth_error announcements (TVBoxDisplay.ticks es) = Some ann
      /\ TVBoxDisplay.render TVBoxDisplay.portrait content announcements c'
         = TVBoxDisplay.Screen (TVBoxDisplay.ShowAnnouncement ann)
      /\ (S (TVBoxDisplay.ticks es) = List.length announcements ->
          TVBoxDisplay.runMounted TVBoxDisplay.portrait content announcements random start
            (TVBoxDisplay.AutoAdvanceTick :: es ++ [TVBoxDisplay.AutoAdvanceTick])%list
          = Some (TVBoxDisplay.mkCursor (TVBoxDisplay.goToNext content i') false (JS.Num 0),
                  S calls)))
  /\ (forall layout : TVBoxDisplay.AspectRatio,
         TVBoxDisplay.isPortraitContent layout = false ->
         TVBoxDisplay.runMounted layout content announcements random start
           (TVBoxDisplay.AutoAdvanceTick :: es)
         = None).
Proof.
  intros start Hdraw Hticks.
  assert (Hne : announcements <> []) by (intros ->; simpl in Hticks; lia).
  destruct (nth_error announcements (TVBoxDisplay.ticks es)) as [ann |] eqn:Hnth;
    [| apply nth_error_None in Hnth; lia].
  assert (Hfirst : exists a0, nth_error announcements 0 = Some a0)
    by (destruct announcements as [| a0 r]; [congruence | now exists a0]).
  destruct Hfirst as [a0 Ha0].
  split.
  - destruct (round_in_portrait content announcements random (S calls) es i 0%nat
                ltac:(simpl; lia)) as [i' Hrun].
    cbn [Nat.add] in Hrun.
    assert (Hall : TVBoxDisplay.runMounted TVBoxDisplay.portrait content announcements
                     random start (TVBoxDisplay.AutoAdvanceTick :: es)
                   = Some (TVBoxDisplay.mkCursor i' true
                             (JS.Num (Z.of_nat (TVBoxDisplay.ticks es))), S calls)).
    { subst start. cbn [TVBoxDisplay.runMounted].
      rewrite tick_starts_round by assumption.
      rewrite render_portrait. cbn [fst]. exact Hrun. }
    exists i', ann. cbn zeta.
    split; [exact Hall |]. split; [reflexivity |]. split.
    + rewrite render_portrait. f_equal. now apply displayContent_announcement.
    + intros Hlast. rewrite app_comm_cons, runMounted_app, Hall.
      cbn [TVBoxDisplay.runMounted]. rewrite tick_ends_round by exact Hlast.
      now rewrite render_portrait.
  - intros layout Hlayout. subst start. cbn [TVBoxDisplay.runMounted].
    rewrite tick_starts_round by assumption. cbn [fst].
    unfold TVBoxDisplay.render.
    pose proof (displayContent_announcement content announcements i 0 a0 Ha0) as Hshow.
    cbn [Z.of_nat] in Hshow. rewrite Hshow.
    cbn [TVBoxDisplay.showingAnnouncement]. now rewrite Hlayout.
Qed.

Lemma announcement_round_needs_portrait_layout_witness :
  TVBoxDisplay.runMounted TVBoxDisplay.landscape tvScenarioA [notice; notice]
    (fun _ => 1 # 10) (TVBoxDisplay.initialCursor, 0%nat)
    [TVBoxDisplay.AutoAdvanceTick; TVBoxDisplay.ImageIntervalFired;
     TVBoxDisplay.AutoAdvanceTick]
  = None.
Proof.
  exact (proj2 (announcement_round_needs_portrait_layout tvScenarioA [notice; notice]
                  (fun _ => 1 # 10) 0 (JS.Num 0) (JS.Num 0)
                  [TVBoxDisplay.ImageIntervalFired; TVBoxDisplay.AutoAdvanceTick]
                  eq_refl ltac:(unfold TVBoxDisplay.ticks; simpl; lia))
           TVBoxDisplay.landscape eq_refl).
Defined.

(** ** Adaptive video URLs *)

Lemma firstPreferred_sound
      (formats : list TVBoxDisplay.VideoFormat) (qualities : list string) (u : string) :
  TVBoxDisplay.firstPreferred formats qualities = Some u ->
  JS.truthy_str u = true
  /\ exists f, In f formats /\ TVBoxDisplay.url f = u
               /\ In (TVBoxDisplay.quality f) qualities.
Proof.
  induction qualities as [| q rest IH]; simpl; [discriminate |].
  destruct (find (fun f => TVBoxDisplay.quality f === q) formats) as [found |] eqn:Ef.
  - destruct (JS.truthy_str (TVBoxDisplay.url found)) eqn:Et.
    + intros [= <-]. split; [exact Et |].
      apply find_some in Ef as [Hin Hq]. apply String.eqb_eq in Hq.
      exists found. repeat split; [exact Hin | now left].
    + intros H. destruct (IH H) as [Ht [f [Hin [Hu Hq]]]].
      split; [exact Ht |]. exists f. repeat split; auto.
  - intros H. destruct (IH H) as [Ht [f [Hin [Hu Hq]]]].
    split; [exact Ht |]. exists f. repeat split; auto.
Qed.

(** X11. [getAdaptiveVideoUrl] only ever answers with the non-empty URL
    of one of the item's formats, and that format either has one of the
    three qualities preferred for the network quality or is the first
    format of the list; an item without formats gets no URL. *)
Theorem adaptive_url_comes_from_formats
        (networkQuality : TVBoxDisplay.NetworkQuality)
        (formats : option (list TVBoxDisplay.VideoFormat)) (u : string) :
  TVBoxDisplay.getAdaptiveVideoUrl networkQuality formats = Some u ->
  JS.truthy_str u = true
  /\ exists (fs : list TVBoxDisplay.VideoFormat) (f : TVBoxDisplay.VideoFormat),
       formats = Some fs /\ In f fs /\ TVBoxDisplay.url f = u
       /\ (In (TVBoxDisplay.quality f) (TVBoxDisplay.preferredQualities networkQuality)
           \/ hd_error fs = Some f).
Proof.
  unfold TVBoxDisplay.getAdaptiveVideoUrl.
  destruct formats as [[| first others] |]; try discriminate.
  destruct (TVBoxDisplay.firstPreferred (first :: others)
              (TVBoxDisplay.preferredQualities networkQuality)) as [u' |] eqn:Ep.
  - intros [= <-]. destruct (firstPreferred_sound _ _ _ Ep) as [Ht [f [Hin [Hu Hq]]]].
    split; [exact Ht |]. exists (first :: others), f. repeat split; auto.
  - destruct (JS.truthy_str (TVBoxDisplay.url first)) eqn:Et; [| discriminate].
    intros [= <-]. split; [exact Et |].
    exists (first :: others), first. repeat split; [now left | now right].
Qed.

Lemma firstPreferred_skips
      (formats : list TVBoxDisplay.VideoFormat) (pre post : list string) :
  (forall q, In q pre -> TVBoxDisplay.firstPreferred formats [q] = None) ->
  TVBoxDisplay.firstPreferred formats (pre ++ post)%list
  = TVBoxDisplay.firstPreferred formats post.
Proof.
  induction pre as [| q pre IH]; intros Hpre; [reflexivity |].
  simpl. pose proof (Hpre q (or_introl eq_refl)) as Hq. simpl in Hq.
  assert (Hrest : forall q', In q' pre -> TVBoxDisplay.firstPreferred formats [q'] = None)
    by (intros q' Hin; apply Hpre; now right).
  destruct (find (fun f => TVBoxDisplay.quality f === q) formats) as [found |].
  - destruct (JS.truthy_str (TVBoxDisplay.url found)); [discriminate | now apply IH].
  - now apply IH.
Qed.

(** X12. The qualities are tried in the order of preference: when the
    first format of some preferred quality has a URL and no quality
    preferred to it yields one, [getAdaptiveVideoUrl] answers with the URL
    of that format. *)
Theorem adaptive_url_follows_preference
        (networkQuality : TVBoxDisplay.NetworkQuality)
        (formats : list TVBoxDisplay.VideoFormat)
        (better worse : list string) (q : string) (f : TVBoxDisplay.VideoFormat) :
  TVBoxDisplay.preferredQualities networkQuality = (better ++ q :: worse)%list ->
  (forall q', In q' better -> TVBoxDisplay.firstPreferred formats [q'] = None) ->
  find (fun f => TVBoxDisplay.quality f === q) formats = Some f ->
  JS.truthy_str (TVBoxDisplay.url f) = true ->
  TVBoxDisplay.getAdaptiveVideoUrl networkQuality (Some formats)
  = Some (TVBoxDisplay.url f).
Proof.
  intros Hpref Hbetter Hfind Hurl. unfold TVBoxDisplay.getAdaptiveVideoUrl.
  destruct formats as [| first others]; [discriminate |].
  rewrite Hpref, firstPreferred_skips by exact Hbetter.
  simpl. simpl in Hfind. now rewrite Hfind, Hurl.
Qed.

Lemma adaptive_url_comes_from_formats_witness :
  JS.truthy_str "http://cdn/b-720.mp4" = true.
Proof.
  exact (proj1 (adaptive_url_comes_from_formats TVBoxDisplay.high
                  (Some [TVBoxDisplay.mkFormat "360p" "http://cdn/b-360.mp4" None "mp4";
                         TVBoxDisplay.mkFormat "720p" "http://cdn/b-720.mp4" None "mp4"])
                  "http://cdn/b-720.mp4" eq_refl)).
Defined.

Lemma adaptive_url_follows_preference_witness :
  TVBoxDisplay.getAdaptiveVideoUrl TVBoxDisplay.high
    (Some [TVBoxDisplay.mkFormat "360p" "http://cdn/b-360.mp4" None "mp4";
           TVBoxDisplay.mkFormat "720p" "http://cdn/b-720.mp4" None "mp4"])
  = Some "http://cdn/b-720.mp4".
Proof.
  apply (adaptive_url_follows_preference TVBoxDisplay.high _ ["1080p"] ["480p"] "720p"
           (TVBoxDisplay.mkFormat "720p" "http://cdn/b-720.mp4" None "mp4")).
  - reflexivity.
  - intros q' [<- | []]. reflexivity.
  - reflexivity.
  - reflexivity.
Defined.

(** While the cache holds fewer than 50 entries an insertion evicts
    nothing, so the entries of other videos stay as they are. *)
Lemma cacheVideo_keeps_others
      (now : Z) (id id' url : string) (md : option VideoCache.Metadata)
      (c : VideoCache.t) :
  id <> id' ->
  (List.length (VideoCache.cache c) < VideoCache.MAX_CACHE_SIZE)%nat ->
  VideoCache.map_get id' (VideoCache.cache (VideoCache.cacheVideo now id url md c))
  = VideoCache.map_get id' (VideoCache.cache c)
  /\ (List.length (VideoCache.cache (VideoCache.cacheVideo now id url md c))
      <= S (List.length (VideoCache.cache c)))%nat.
Proof.
  intros Hne Hroom. unfold VideoCache.cacheVideo. cbn [VideoCache.cache].
  destruct (Nat.leb_spec VideoCache.MAX_CACHE_SIZE (List.length (VideoCache.cache c)));
    [lia |].
  split; [now apply map_get_set_other | apply map_set_length].
Qed.

Lemma insertAll_keeps_others (id' : string) (calls : list VideoCache.Insertion) :
  Forall (fun i => VideoCache.ins_id i <> id') calls ->
  forall c : VideoCache.t,
    (List.length (VideoCache.cache c) + List.length calls
     <= VideoCache.MAX_CACHE_SIZE)%nat ->
    VideoCache.map_get id' (VideoCache.cache (VideoCache.insertAll c calls))
    = VideoCache.map_get id' (VideoCache.cache c).
Proof.
  intros Hcalls. induction Hcalls as [| i calls Hi Hrest IH]; intros c Hlen;
    [reflexivity |].
  unfold VideoCache.insertAll. cbn [fold_left List.length] in *.
  destruct (cacheVideo_keeps_others (VideoCache.at_time i) (VideoCache.ins_id i) id'
              (VideoCache.ins_url i) None c Hi ltac:(lia)) as [Hget Hsize].
  fold (VideoCache.insertAll
          (VideoCache.cacheVideo (VideoCache.at_time i) (VideoCache.ins_id i)
             (VideoCache.ins_url i) None c) calls).
  rewrite IH by lia. exact Hget.
Qed.

(** A cached entry that has not expired decides the URL of the video. *)
Lemma cached_url_is_used
      (now : Z) (nq : TVBoxDisplay.NetworkQuality) (caps : option (list string))
      (content : TVBoxDisplay.ContentItem)
      (formats : option (list TVBoxDisplay.VideoFormat))
      (vc : VideoCache.t) (v : VideoCache.CachedVideo) :
  VideoCache.map_get (TVBoxDisplay.id content) (VideoCache.cache vc) = Some v ->
  VideoCache.isExpired now v = false ->
  TVBoxDisplay.getOptimalVideoUrl now nq caps content formats vc = (VideoCache.url v, vc).
Proof.
  intros Hget Hfresh. unfold TVBoxDisplay.getOptimalVideoUrl.
  rewrite getCachedVideo_loaded.
  - now rewrite Hget, Hfresh.
  - intros Hempty. rewrite Hempty in Hget. discriminate.
Qed.

(** X13. Once the preload effect has cached a URL for a video,
    [getOptimalVideoUrl] answers with that cached URL, whatever the
    network quality, the detected capabilities and the item's formats
    have become, for as long as the entry is in the cache and younger
    than 30 minutes; it stays in the cache through any further insertions
    of other videos that do not take the cache beyond its 50 entries. *)
Theorem preloaded_url_is_reused
        (now now' : Z) (nq nq' : TVBoxDisplay.NetworkQuality) (adaptiveQuality : string)
        (caps caps' : option (list string)) (content : TVBoxDisplay.ContentItem)
        (formats formats' : option (list TVBoxDisplay.VideoFormat))
        (vc : VideoCache.t) (calls : list VideoCache.Insertion) :
  let preloaded := TVBoxDisplay.preloadVideo now nq adaptiveQuality caps content formats vc in
  JS.truthy_str (fst (TVBoxDisplay.getOptimalVideoUrl now nq caps content formats vc)) = true ->
  now' - now <= VideoCache.CACHE_DURATION ->
  Forall (fun i => VideoCache.ins_id i <> TVBoxDisplay.id content) calls ->
  (List.length (VideoCache.cache preloaded) + List.length calls
   <= VideoCache.MAX_CACHE_SIZE)%nat ->
  fst (TVBoxDisplay.getOptimalVideoUrl now' nq' caps' content formats'
         (VideoCache.insertAll preloaded calls))
  = fst (TVBoxDisplay.getOptimalVideoUrl now nq caps content formats vc).
Proof.
  intros preloaded Hurl Hfresh Hothers Hroom.
  assert (Hentry :
            exists md,
              VideoCache.map_get (TVBoxDisplay.id content) (VideoCache.cache preloaded)
              = Some (VideoCache.mkVideo (TVBoxDisplay.id content)
                        (fst (TVBoxDisplay.getOptimalVideoUrl now nq caps content formats vc))
                        now md)).
  { subst preloaded. unfold TVBoxDisplay.preloadVideo.
    destruct (TVBoxDisplay.getOptimalVideoUrl now nq caps content formats vc)
      as [videoUrl vc1].
    cbn [fst] in *. rewrite Hurl. eexists. apply cacheVideo_get_same. }
  destruct Hentry as [md Hentry].
  rewrite (cached_url_is_used now' nq' caps' content formats'
             (VideoCache.insertAll preloaded calls)
             (VideoCache.mkVideo (TVBoxDisplay.id content)
                (fst (TVBoxDisplay.getOptimalVideoUrl now nq caps content formats vc))
                now md)).
  - reflexivity.
  - rewrite insertAll_keeps_others by assumption. exact Hentry.
  - unfold VideoCache.isExpired. cbn [VideoCache.cachedAt].
    destruct (Z.ltb_spec VideoCache.CACHE_DURATION (now' - now)); [lia | reflexivity].
Qed.

Lemma preloaded_url_is_reused_witness :
  fst (TVBoxDisplay.getOptimalVideoUrl 1000 TVBoxDisplay.low None contentB None
         (VideoCache.insertAll
            (TVBoxDisplay.preloadVideo 0 TVBoxDisplay.high "1080p" None contentB
               (Some [TVBoxDisplay.mkFormat "1080p" "http://cdn/b-1080.mp4" None "mp4"])
               VideoCache.empty)
            (VideoCache.fill 0 49 1)))
  = "http://cdn/b-1080.mp4".
Proof.
  rewrite (preloaded_url_is_reused 0 1000 TVBoxDisplay.high TVBoxDisplay.low "1080p"
             None None contentB
             (Some [TVBoxDisplay.mkFormat "1080p" "http://cdn/b-1080.mp4" None "mp4"])
             None VideoCache.empty (VideoCache.fill 0 49 1)
             eq_refl ltac:(vm_compute; discriminate)
             ltac:(vm_compute; repeat constructor; discriminate)
             ltac:(vm_compute; lia)).
  reflexivity.
Defined.

(** ** The playlist of MediaPlayer *)

(** X14. The normalization of a received manifest keeps, in the order
    received, one item for each entry that is an object with a truthy
    [content_id] and a truthy [url], with the entry's fields copied, and
    nothing else; every item it produces is active and has an identifier
    and a non-empty URL. *)
Theorem normalization_keeps_fields_and_order (serverPlaylist : list (option WireItem)) :
  Forall2 MediaPlayer.normalizes
          (filter MediaPlayer.validItem serverPlaylist)
          (MediaPlayer.transformPlaylist serverPlaylist)
  /\ Forall MediaPlayer.playable (MediaPlayer.transformPlaylist serverPlaylist)
  /\ (List.length (MediaPlayer.transformPlaylist serverPlaylist)
      <= List.length serverPlaylist)%nat.
Proof.
  induction serverPlaylist as [| item rest [IH2 [IHp IHl]]].
  - repeat split; constructor.
  - destruct (MediaPlayer.validItem item) eqn:Hv.
    + destruct (transformPlaylist_cons_valid item rest Hv)
        as [w [cid [u [Ei [Ec [Eu Et]]]]]].
      rewrite Et. simpl filter. rewrite Hv. split; [| split].
      * constructor; [| exact IH2].
        exists w. cbn. repeat split; assumption.
      * constructor; [| exact IHp].
        subst item. simpl in Hv. rewrite Ec, Eu in Hv. simpl in Hv.
        apply andb_true_iff in Hv as [Hc Hu]. repeat split; assumption.
      * simpl. lia.
    + rewrite transformPlaylist_cons_invalid by exact Hv.
      simpl filter. rewrite Hv. repeat split; [exact IH2 | exact IHp | simpl; lia].
Qed.

(** X15. [loadPlaylist] sends the manifest request only when the player is
    online and a device token is stored, and then sends exactly one,
    carrying that token. Offline it sends nothing, leaves the storage
    untouched and takes the persisted playlist, empty or not, without an
    error message. In every case it ends the loading state and leaves
    [currentIndex] where it was. *)
Theorem manifest_request_needs_network_and_token
        (token : option string) (resp : MediaPlayer.ApiResult) (now : Z)
        (ds : MediaPlayer.Storage) (st : MediaPlayer.State) :
  let r := MediaPlayer.loadPlaylist token resp now ds st in
  (MediaPlayer.isOnline st = false \/ JS.truthy_opt JS.truthy_str token = false ->
   snd r = [] /\ snd (fst r) = ds)
  /\ (MediaPlayer.isOnline st = false ->
      MediaPlayer.playlist (fst (fst r)) = DeviceStorage.getPlaylist ds
      /\ MediaPlayer.error (fst (fst r)) = None)
  /\ (forall tok, MediaPlayer.isOnline st = true -> token = Some tok ->
                  JS.truthy_str tok = true -> snd r = [MediaPlayer.GetManifest tok])
  /\ MediaPlayer.isLoading (fst (fst r)) = false
  /\ MediaPlayer.currentIndex (fst (fst r)) = MediaPlayer.currentIndex st.
Proof.
  intros r. subst r. unfold MediaPlayer.loadPlaylist.
  assert (Hcatch : forall s,
             MediaPlayer.currentIndex (MediaPlayer.loadPlaylistCatch ds s)
             = MediaPlayer.currentIndex s).
  { intros s. unfold MediaPlayer.loadPlaylistCatch.
    now destruct (DeviceStorage.getPlaylist ds). }
  destruct (MediaPlayer.isOnline st) eqn:Hon;
    [destruct token as [tok |];
       [destruct (JS.truthy_str tok) eqn:Ht; [destruct resp as [| data] |] |] |];
    cbn [fst snd];
    (split;
       [intros [H | H]; try discriminate; try (simpl in H; congruence);
        split; reflexivity |]);
    (split; [intros H; try discriminate; split; reflexivity |]);
    (split;
       [intros tok' Ho Et Ht'; try discriminate;
        injection Et as <-; first [reflexivity | congruence] |]);
    (split; [reflexivity |]);
    cbn; rewrite ?Hcatch; reflexivity.
Qed.

Lemma manifest_request_needs_network_and_token_witness :
  snd (MediaPlayer.loadPlaylist (Some "token") MediaPlayer.ApiError 200 storedScenarioA
         (MediaPlayer.initialState false)) = []
  /\ snd (MediaPlayer.loadPlaylist (Some "token") MediaPlayer.ApiError 200 storedScenarioA
            (MediaPlayer.initialState true)) = [MediaPlayer.GetManifest "token"].
Proof.
  split.
  - exact (proj1 (proj1 (manifest_request_needs_network_and_token (Some "token")
                           MediaPlayer.ApiError 200 storedScenarioA
                           (MediaPlayer.initialState false))
                    (or_introl eq_refl))).
  - exact (proj1 (proj2 (proj2 (manifest_request_needs_network_and_token (Some "token")
                                  MediaPlayer.ApiError 200 storedScenarioA
                                  (MediaPlayer.initialState true))))
             "token" eq_refl eq_refl eq_refl).
Defined.

(** ** Loading media in MediaPlayer *)

(** X16. [preloadMedia] sends at most one request, and only for the URL
    of the item. Without a request it answers with the bytes the cache
    holds for that URL and leaves the storage alone. When the download
    fails it falls back to the item's own URL and leaves the storage
    alone. An item without a checksum is never written to the cache. Bytes
    that did not come from the cache are the ones just downloaded. *)
Theorem preloadMedia_requests_and_fallback
        (digest_of : list Byte.byte -> string)
        (fetch : string -> option (list Byte.byte))
        (now : Z) (item : MediaPlayer.PlaylistItem) (ds : MediaPlayer.Storage) :
  let r := MediaPlayer.preloadMedia digest_of fetch now item ds in
  (snd r = [] \/ snd r = [MediaPlayer.FetchMedia (MediaPlayer.url item)])
  /\ (snd r = [] ->
      snd (fst r) = ds
      /\ exists cachedBlob,
           DeviceStorage.getCachedMedia (MediaPlayer.url item) ds = Some cachedBlob
           /\ fst (fst r) = MediaPlayer.ObjectUrl cachedBlob)
  /\ (snd r <> [] -> fetch (MediaPlayer.url item) = None ->
      fst (fst r) = MediaPlayer.DirectUrl (MediaPlayer.url item) /\ snd (fst r) = ds)
  /\ (JS.truthy_opt JS.truthy_str (MediaPlayer.checksum item) = false -> snd (fst r) = ds)
  /\ (forall blob, snd r <> [] -> fst (fst r) = MediaPlayer.ObjectUrl blob ->
                   fetch (MediaPlayer.url item) = Some blob).
Proof.
  intros r. subst r. unfold MediaPlayer.preloadMedia.
  destruct (DeviceStorage.isCached (MediaPlayer.url item) (MediaPlayer.checksum item) ds);
    [destruct (DeviceStorage.getCachedMedia (MediaPlayer.url item) ds) as [b |] eqn:Eg |];
    try (destruct (fetch (MediaPlayer.url item)) as [blob |] eqn:Ef;
         [destruct (JS.truthy_opt JS.truthy_str (MediaPlayer.checksum item)) eqn:Ec |]);
    cbn [fst snd];
    (split; [first [now left | now right] |]);
    (split;
       [intros H;
        first [discriminate | split; [reflexivity | eexists; split; reflexivity]] |]);
    (split; [intros H H'; first [congruence | discriminate | split; reflexivity] |]);
    (split; [intros H; first [discriminate | reflexivity] |]);
    intros blob' H H'; congruence.
Qed.

Lemma preloadMedia_requests_and_fallback_witness :
  fst (fst (MediaPlayer.preloadMedia sample_digest (fun _ => None) 200 videoB
              storedScenarioA))
  = MediaPlayer.DirectUrl "http://cdn/b.mp4".
Proof.
  exact (proj1 (proj1 (proj2 (proj2
    (preloadMedia_requests_and_fallback sample_digest (fun _ => None) 200 videoB
       storedScenarioA))) ltac:(discriminate) eq_refl)).
Defined.

(** The index the skip branch of [loadCurrentMedia] moves to. *)
Lemma loadCurrentMedia_skips
      (digest_of : list Byte.byte -> string)
      (fetch : string -> option (list Byte.byte))
      (now : Z) (socket : bool) (ds : MediaPlayer.Storage) (st : MediaPlayer.State) :
  MediaPlayer.playlist st <> [] ->
  match JS.get (MediaPlayer.playlist st) (MediaPlayer.currentIndex st) with
  | Some currentItem => MediaPlayer.active currentItem = false
  | None => True
  end ->
  MediaPlayer.loadCurrentMedia digest_of fetch now socket ds st
  = (MediaPlayer.setCurrentIndex (MediaPlayer.handleMediaEnd (MediaPlayer.playlist st)) st,
     ds, []).
Proof.
  intros Hne Hskip. unfold MediaPlayer.loadCurrentMedia.
  destruct (MediaPlayer.playlist st) as [| p ps] eqn:Ep; [congruence |].
  destruct (JS.get (p :: ps) (MediaPlayer.currentIndex st)) as [currentItem |];
    [| reflexivity].
  now rewrite Hskip.
Qed.

(** X17. [loadPlaylist] never moves [currentIndex], so a reload with a
    shorter playlist can leave it beyond the end; the next pass of
    [loadCurrentMedia] then finds no item there, requests nothing, leaves
    the storage alone and moves the index to [(i + 1) mod n], which is
    inside the playlist. *)
Theorem index_beyond_playlist_recovers
        (digest_of : list Byte.byte -> string)
        (fetch : string -> option (list Byte.byte))
        (now : Z) (socket : bool) (ds : MediaPlayer.Storage)
        (st : MediaPlayer.State) (i : Z) :
  let n := Z.of_nat (List.length (MediaPlayer.playlist st)) in
  0 < n ->
  n <= i ->
  MediaPlayer.currentIndex st = JS.Num i ->
  let r := MediaPlayer.loadCurrentMedia digest_of fetch now socket ds st in
  MediaPlayer.currentIndex (fst (fst r)) = JS.Num ((i + 1) mod n)
  /\ 0 <= (i + 1) mod n < n
  /\ MediaPlayer.playlist (fst (fst r)) = MediaPlayer.playlist st
  /\ snd (fst r) = ds
  /\ snd r = [].
Proof.
  intros n Hn Hi Hidx r. subst r.
  rewrite loadCurrentMedia_skips.
  - cbn [fst snd MediaPlayer.setCurrentIndex MediaPlayer.currentIndex
         MediaPlayer.playlist].
    rewrite Hidx. unfold MediaPlayer.handleMediaEnd, JS.rem, JS.add, JS.length. fold n.
    destruct (Z.eqb_spec n 0); [lia |].
    rewrite Z.rem_mod_nonneg by lia.
    repeat split; apply mod_in_range; lia.
  - intros E. subst n. rewrite E in Hn. simpl in Hn. lia.
  - rewrite Hidx. unfold JS.get. destruct (Z.ltb_spec i 0); [lia |].
    destruct (nth_error (MediaPlayer.playlist st) (Z.to_nat i)) eqn:En; [| exact I].
    assert (nth_error (MediaPlayer.playlist st) (Z.to_nat i) <> None) as Hsome by congruence.
    apply nth_error_Some in Hsome. subst n. lia.
Qed.

Lemma index_beyond_playlist_recovers_witness :
  MediaPlayer.currentIndex
    (fst (fst (MediaPlayer.loadCurrentMedia sample_digest sample_fetch 200 true
                 storedScenarioA
                 (MediaPlayer.mkState scenarioA (JS.Num 4) false None true None None false))))
  = JS.Num 1.
Proof.
  exact (proj1 (index_beyond_playlist_recovers sample_digest sample_fetch 200 true
                  storedScenarioA
                  (MediaPlayer.mkState scenarioA (JS.Num 4) false None true None None false)
                  4 ltac:(simpl; lia) ltac:(simpl; lia) eq_refl)).
Defined.

Lemma skip_passes
      (digest_of : list Byte.byte -> string)
      (fetch : string -> option (list Byte.byte))
      (now : Z) (socket : bool) (ds : MediaPlayer.Storage) (k : nat) :
  forall (st : MediaPlayer.State) (i : Z),
    let n := Z.of_nat (List.length (MediaPlayer.playlist st)) in
    MediaPlayer.currentIndex st = JS.Num i ->
    0 <= i < n ->
    (forall j, (j < k)%nat ->
               exists it,
                 JS.get (MediaPlayer.playlist st) (JS.Num ((i + Z.of_nat j) mod n)) = Some it
                 /\ MediaPlayer.active it = false) ->
    MediaPlayer.loadPasses digest_of fetch k now socket ds st
    = ({| MediaPlayer.playlist := MediaPlayer.playlist st;
          MediaPlayer.currentIndex := JS.Num ((i + Z.of_nat k) mod n);
          MediaPlayer.isLoading := MediaPlayer.isLoading st;
          MediaPlayer.error := MediaPlayer.error st;
          MediaPlayer.isOnline := MediaPlayer.isOnline st;
          MediaPlayer.currentMediaUrl := MediaPlayer.currentMediaUrl st;
          MediaPlayer.nextMediaUrl := MediaPlayer.nextMediaUrl st;
          MediaPlayer.isPreloading := MediaPlayer.isPreloading st |}, ds, []).
Proof.
  induction k as [| k IH]; intros st i n Hidx Hi Hskip.
  - simpl. rewrite Z.add_0_r, Z.mod_small by exact Hi.
    destruct st; simpl in *. now subst.
  - assert (Hne : MediaPlayer.playlist st <> []).
    { intros E. subst n. rewrite E in Hi. simpl in Hi. lia. }
    cbn [MediaPlayer.loadPasses].
    rewrite loadCurrentMedia_skips; [| exact Hne |].
    + set (st1 := MediaPlayer.setCurrentIndex
                    (MediaPlayer.handleMediaEnd (MediaPlayer.playlist st)) st).
      assert (Hidx1 : MediaPlayer.currentIndex st1 = JS.Num ((i + 1) mod n)).
      { subst st1. cbn. rewrite Hidx. now apply handleMediaEnd_in_range. }
      rewrite (IH st1 ((i + 1) mod n)); [| exact Hidx1 | | ].
      * subst st1.
        cbn [MediaPlayer.setCurrentIndex MediaPlayer.playlist MediaPlayer.isLoading
             MediaPlayer.error MediaPlayer.isOnline MediaPlayer.currentMediaUrl
             MediaPlayer.nextMediaUrl MediaPlayer.isPreloading].
        fold n.
        replace (((i + 1) mod n + Z.of_nat k) mod n) with ((i + Z.of_nat (S k)) mod n);
          [reflexivity |].
        rewrite Zplus_mod_idemp_l. f_equal. lia.
      * subst st1. cbn [MediaPlayer.setCurrentIndex MediaPlayer.playlist]. fold n.
        apply mod_in_range. lia.
      * intros j Hj. subst st1. cbn [MediaPlayer.setCurrentIndex MediaPlayer.playlist].
        fold n.
        destruct (Hskip (S j) ltac:(lia)) as [it [Hget Hact]].
        exists it. split; [| exact Hact].
        rewrite Zplus_mod_idemp_l.
        replace (i + 1 + Z.of_nat j) with (i + Z.of_nat (S j)) by lia. exact Hget.
    + destruct (Hskip 0%nat ltac:(lia)) as [it [Hget Hact]].
      rewrite Z.add_0_r, Z.mod_small in Hget by exact Hi.
      now rewrite Hidx, Hget.
Qed.

Lemma loadCurrentMedia_loads
      (digest_of : list Byte.byte -> string)
      (fetch : string -> option (list Byte.byte))
      (now : Z) (socket : bool) (ds : MediaPlayer.Storage) (st : MediaPlayer.State)
      (item : MediaPlayer.PlaylistItem) :
  JS.get (MediaPlayer.playlist st) (MediaPlayer.currentIndex st) = Some item ->
  MediaPlayer.active item = true ->
  let r := MediaPlayer.loadCurrentMedia digest_of fetch now socket ds st in
  MediaPlayer.currentIndex (fst (fst r)) = MediaPlayer.currentIndex st
  /\ MediaPlayer.currentMediaUrl (fst (fst r))
     = Some (fst (fst (MediaPlayer.preloadMedia digest_of fetch now item ds))).
Proof.
  intros Hget Hact r. subst r. unfold MediaPlayer.loadCurrentMedia.
  destruct (MediaPlayer.playlist st) as [| p ps] eqn:Ep.
  - unfold JS.get in Hget. destruct (MediaPlayer.currentIndex st) as [z |]; [| discriminate].
    destruct (z <? 0); [discriminate |]. now destruct (Z.to_nat z).
  - rewrite Hget, Hact.
    destruct (MediaPlayer.preloadMedia digest_of fetch now item ds) as [[u d] q].
    destruct (JS.get (p :: ps)
                (JS.rem (JS.add (MediaPlayer.currentIndex st) (JS.Num 1))
                        (JS.length (p :: ps)))) as [nextItem |].
    + destruct (MediaPlayer.active nextItem).
      * destruct (MediaPlayer.preloadMedia digest_of fetch now nextItem d) as [[u' d'] q'].
        split; reflexivity.
      * split; reflexivity.
    + split; reflexivity.
Qed.

(** X18. When the current item and the next [k - 1] ones are inactive
    and the one after them is active, the media effect skips ahead one
    index per pass: after [k] passes, with no request sent and the storage
    untouched, the index rests on that active item, and the pass that
    follows loads it there, handing its media URL to the renderer. *)
Theorem inactive_items_are_skipped
        (digest_of : list Byte.byte -> string)
        (fetch : string -> option (list Byte.byte))
        (now : Z) (socket : bool) (ds : MediaPlayer.Storage) (st : MediaPlayer.State)
        (i : Z) (k : nat) (item : MediaPlayer.PlaylistItem) :
  let n := Z.of_nat (List.length (MediaPlayer.playlist st)) in
  MediaPlayer.currentIndex st = JS.Num i ->
  0 <= i < n ->
  (forall j, (j < k)%nat ->
             exists it,
               JS.get (MediaPlayer.playlist st) (JS.Num ((i + Z.of_nat j) mod n)) = Some it
               /\ MediaPlayer.active it = false) ->
  JS.get (MediaPlayer.playlist st) (JS.Num ((i + Z.of_nat k) mod n)) = Some item ->
  MediaPlayer.active item = true ->
  let skipped := MediaPlayer.loadPasses digest_of fetch k now socket ds st in
  let loaded :=
    MediaPlayer.loadCurrentMedia digest_of fetch now socket (snd (fst skipped))
                                 (fst (fst skipped)) in
  MediaPlayer.currentIndex (fst (fst skipped)) = JS.Num ((i + Z.of_nat k) mod n)
  /\ snd (fst skipped) = ds
  /\ snd skipped = []
  /\ MediaPlayer.currentIndex (fst (fst loaded)) = JS.Num ((i + Z.of_nat k) mod n)
  /\ MediaPlayer.currentMediaUrl (fst (fst loaded))
     = Some (fst (fst (MediaPlayer.preloadMedia digest_of fetch now item ds))).
Proof.
  intros n Hidx Hi Hskip Hget Hact skipped loaded. subst skipped loaded.
  rewrite (skip_passes digest_of fetch now socket ds k st i Hidx Hi Hskip).
  fold n. cbn [fst snd].
  split; [reflexivity |]. split; [reflexivity |]. split; [reflexivity |].
  apply loadCurrentMedia_loads; cbn; assumption.
Qed.

Lemma inactive_items_are_skipped_witness :
  MediaPlayer.currentIndex
    (fst (fst (MediaPlayer.loadPasses sample_digest sample_fetch 1 200 true storedScenarioA
                 (MediaPlayer.mkState
                    [MediaPlayer.mkItem (JS.Num 9) "image" "http://cdn/x.png" None None
                                        false None;
                     videoB]
                    (JS.Num 0) false None true None None false))))
  = JS.Num 1.
Proof.
  refine (proj1 (inactive_items_are_skipped sample_digest sample_fetch 200 true
                   storedScenarioA
                   (MediaPlayer.mkState
                      [MediaPlayer.mkItem (JS.Num 9) "image" "http://cdn/x.png" None None
                                          false None;
                       videoB]
                      (JS.Num 0) false None true None None false)
                   0 1 videoB eq_refl ltac:(simpl; lia) _ eq_refl eq_refl)).
  intros j Hj. assert (j = 0%nat) as -> by lia.
  eexists. split; reflexivity.
Defined.

Lemma mediaPlayer_step_in_range
      (playlist : list MediaPlayer.PlaylistItem) (e : MediaPlayer.Event)
      (i : Z) (k : nat) :
  0 <= i < Z.of_nat (List.length playlist) ->
  exists (i' : Z) (k' : nat),
    MediaPlayer.step playlist (MediaPlayer.mkPlaying (JS.Num i) k) e
    = MediaPlayer.mkPlaying (JS.Num i') k'
    /\ 0 <= i' < Z.of_nat (List.length playlist).
Proof.
  intros Hi.
  assert (Hre : forall j, (exists i', j = JS.Num i'
                                      /\ 0 <= i' < Z.of_nat (List.length playlist)) ->
                exists (i' : Z) (k' : nat),
                  MediaPlayer.rerender playlist (MediaPlayer.mkPlaying (JS.Num i) k) j
                  = MediaPlayer.mkPlaying (JS.Num i') k'
                  /\ 0 <= i' < Z.of_nat (List.length playlist)).
  { intros j [i' [-> Ri']]. unfold MediaPlayer.rerender.
    eexists; eexists; split; [reflexivity | exact Ri']. }
  assert (Hend : exists i', MediaPlayer.handleMediaEnd playlist (JS.Num i) = JS.Num i'
                            /\ 0 <= i' < Z.of_nat (List.length playlist)).
  { rewrite handleMediaEnd_in_range by exact Hi.
    eexists; split; [reflexivity | apply mod_in_range; lia]. }
  assert (Hsame : exists (i' : Z) (k' : nat),
             MediaPlayer.mkPlaying (JS.Num i) k = MediaPlayer.mkPlaying (JS.Num i') k'
             /\ 0 <= i' < Z.of_nat (List.length playlist))
    by (exists i, k; now split).
  destruct e as [| | | | | c]; cbn [MediaPlayer.step MediaPlayer.index MediaPlayer.listeners].
  - destruct (MediaPlayer.imageTimer playlist (JS.Num i)); [now apply Hre | exact Hsame].
  - destruct (MediaPlayer.rendersVideo playlist (JS.Num i)); [| exact Hsame].
    exists i, (S k). now split.
  - destruct (MediaPlayer.rendersVideo playlist (JS.Num i)); [| exact Hsame].
    apply Hre. rewrite iter_handleMediaEnd by exact Hi.
    eexists; split; [reflexivity | apply mod_in_range; lia].
  - destruct (MediaPlayer.rendersVideo playlist (JS.Num i)); [| exact Hsame].
    apply Hre. rewrite iter_handleMediaEnd by exact Hi.
    eexists; split; [reflexivity | apply mod_in_range; lia].
  - destruct (MediaPlayer.rendersImage playlist (JS.Num i)); [now apply Hre | exact Hsame].
  - apply Hre. now apply mediaPlayer_command_in_range.
Qed.

(** X19. Under any sequence of events of MediaPlayer (timer expirations,
    the loading, end or error of a video with any number of listeners on
    its element, image load errors and remote commands of any type) the
    index of a non-empty playlist stays inside the playlist, so there is
    always a current item. *)
Theorem mediaPlayer_events_keep_current_item
        (playlist : list MediaPlayer.PlaylistItem) (es : list MediaPlayer.Event)
        (i : Z) (k : nat) :
  0 <= i < Z.of_nat (List.length playlist) ->
  exists (i' : Z) (item : MediaPlayer.PlaylistItem),
    MediaPlayer.index (MediaPlayer.run playlist (MediaPlayer.mkPlaying (JS.Num i) k) es)
    = JS.Num i'
    /\ 0 <= i' < Z.of_nat (List.length playlist)
    /\ JS.get playlist (JS.Num i') = Some item.
Proof.
  revert i k. unfold MediaPlayer.run.
  induction es as [| e es IH]; intros i k Hi.
  - exists i. simpl. unfold JS.get. destruct (Z.ltb_spec i 0); [lia |].
    destruct (nth_error playlist (Z.to_nat i)) as [item |] eqn:En.
    + exists item. repeat split; lia.
    + apply nth_error_None in En. lia.
  - cbn [fold_left].
    destruct (mediaPlayer_step_in_range playlist e i k Hi) as [i1 [k1 [E1 R1]]].
    rewrite E1. now apply IH.
Qed.

Lemma mediaPlayer_events_keep_current_item_witness :
  exists (i' : Z) (item : MediaPlayer.PlaylistItem),
    MediaPlayer.index
      (MediaPlayer.run scenarioA (MediaPlayer.mkPlaying (JS.Num 0) 0)
         [MediaPlayer.TimerFired; MediaPlayer.VideoLoadedData; MediaPlayer.VideoError;
          MediaPlayer.Remote (command "previous")]) = JS.Num i'
    /\ 0 <= i' < Z.of_nat (List.length scenarioA)
    /\ JS.get scenarioA (JS.Num i') = Some item.
Proof.
  apply mediaPlayer_events_keep_current_item. simpl. lia.
Defined.

(** ** The manifest built by the server *)

Lemma or_num_truthy (o : option JS.num) (d : JS.num) :
  JS.truthy d = true -> JS.truthy (JS.or_num o d) = true.
Proof.
  intros Hd. unfold JS.or_num. destruct o as [a |]; [| exact Hd].
  destruct (JS.truthy a) eqn:Ha; [exact Ha | exact Hd].
Qed.

(** X20. The manifest has one item per playlist row, in the order of the
    rows. Every item of type image carries a duration that is a non-zero
    number (the row's own, or 10 when that is missing or zero), and an
    item has a URL exactly when its row has a non-empty file path, the
    URL being the base URL, a slash and that path. *)
Theorem manifest_items_follow_rows (baseUrl : string) (rows : list DeviceService.Row) :
  map w_playlist_id (DeviceService.getDeviceManifest baseUrl rows)
  = map (fun row => Some (DeviceService.playlist_id row)) rows
  /\ Forall (fun w => w_type w = "image" ->
                      JS.truthy_opt JS.truthy (w_duration_seconds w) = true)
            (DeviceService.getDeviceManifest baseUrl rows)
  /\ Forall2 (fun row w =>
                match DeviceService.file_path row with
                | Some fp =>
                    if JS.truthy_str fp then w_url w = Some (baseUrl ++ "/" ++ fp)
                    else w_url w = None
                | None => w_url w = None
                end)
             rows (DeviceService.getDeviceManifest baseUrl rows).
Proof.
  unfold DeviceService.getDeviceManifest.
  induction rows as [| row rows [IHo [IHd IHu]]]; [repeat split; constructor |].
  simpl. split; [now rewrite IHo |]. split.
  - constructor; [| exact IHd]. cbn. intros Hty. rewrite Hty. cbn.
    now apply or_num_truthy.
  - constructor; [| exact IHu]. cbn.
    destruct (DeviceService.file_path row) as [fp |]; [| reflexivity].
    now destruct (JS.truthy_str fp).
Qed.

(** ** The socket registry *)

Lemma handle_about_others
      (socketId : string) (deviceId : Z) (e : SocketHandler.Event)
      (srv : SocketHandler.Server) :
  SocketHandler.aboutOthers socketId deviceId e ->
  SocketHandler.sockets srv socketId = Some deviceId ->
  DeviceService.getDeviceSocket deviceId (SocketHandler.deviceSockets srv) = Some socketId ->
  (forall s, SocketHandler.sockets srv s = Some deviceId -> s = socketId) ->
  let srv' := SocketHandler.handle srv e in
  SocketHandler.sockets srv' socketId = Some deviceId
  /\ DeviceService.getDeviceSocket deviceId (SocketHandler.deviceSockets srv') = Some socketId
  /\ (forall s, SocketHandler.sockets srv' s = Some deviceId -> s = socketId).
Proof.
  intros Habout Hlive Hmap Honly srv'. subst srv'.
  unfold DeviceService.getDeviceSocket in *.
  destruct e as [s d | s]; simpl in Habout.
  - destruct Habout as [Hs Hd]. cbn.
    unfold DeviceService.markConnected.
    apply String.eqb_neq in Hs. rewrite String.eqb_sym, Hs.
    destruct (Z.eqb_spec deviceId d) as [E | _]; [congruence |].
    repeat split; try assumption.
    intros s'. destruct (s' === s); [| apply Honly].
    intros [= E]. congruence.
  - unfold SocketHandler.handle, SocketHandler.disconnect.
    destruct (SocketHandler.sockets srv s) as [d |] eqn:Es;
      [| repeat split; assumption].
    assert (Hd : d <> deviceId).
    { intros ->. apply Habout. now apply Honly. }
    cbn. unfold DeviceService.markDisconnected.
    apply String.eqb_neq in Habout. rewrite String.eqb_sym, Habout.
    destruct (Z.eqb_spec deviceId d) as [E | _]; [congruence |].
    repeat split; try assumption.
    intros s'. destruct (s' === s); [discriminate | apply Honly].
Qed.

(** X21. After a device connects with a socket, and as long as that
    socket is the only one of the device, a command of an admin for the
    device is sent to that socket, whatever other sockets of other devices
    connect and disconnect in between. *)
Theorem command_reaches_connected_device
        (srv : SocketHandler.Server) (socketId : string) (deviceId : Z)
        (es : list SocketHandler.Event) :
  JS.truthy_str socketId = true ->
  (forall s, SocketHandler.sockets srv s = Some deviceId -> s = socketId) ->
  Forall (SocketHandler.aboutOthers socketId deviceId) es ->
  SocketHandler.deviceCommand deviceId
    (SocketHandler.run (SocketHandler.connection socketId deviceId srv) es)
  = SocketHandler.Sent socketId.
Proof.
  intros Hid Honly Hes.
  set (srv0 := SocketHandler.connection socketId deviceId srv).
  assert (H0 : SocketHandler.sockets srv0 socketId = Some deviceId
               /\ DeviceService.getDeviceSocket deviceId (SocketHandler.deviceSockets srv0)
                  = Some socketId
               /\ (forall s, SocketHandler.sockets srv0 s = Some deviceId -> s = socketId)).
  { subst srv0. cbn. unfold DeviceService.getDeviceSocket, DeviceService.markConnected.
    rewrite String.eqb_refl, Z.eqb_refl. repeat split.
    intros s. destruct (String.eqb_spec s socketId); [easy | apply Honly]. }
  clearbody srv0. revert srv0 H0. unfold SocketHandler.run.
  induction Hes as [| e es He Hes IH]; intros srv0 [Hlive [Hmap Hone]].
  - simpl. unfold SocketHandler.deviceCommand. now rewrite Hmap, Hid, Hlive.
  - simpl. apply IH.
    now apply (handle_about_others socketId deviceId e srv0).
Qed.

Lemma command_reaches_connected_device_witness :
  SocketHandler.deviceCommand 7
    (SocketHandler.run (SocketHandler.connection "s1" 7 SocketHandler.start)
       [SocketHandler.Connect "s2" 8; SocketHandler.Disconnect "s2"])
  = SocketHandler.Sent "s1".
Proof.
  apply command_reaches_connected_device.
  - reflexivity.
  - intros s H. discriminate.
  - repeat constructor; discriminate.
Defined.

(** X22. The disconnect handler unregisters the device of the closing
    socket whichever socket is registered for it: when a device connects
    with a second socket before its first one closes, the closing of the
    first leaves the device without a registered socket, and commands for
    it are answered with "Device not connected" although its second
    socket is still connected. *)
Theorem stale_disconnect_unregisters_device
        (srv : SocketHandler.Server) (first second : string) (deviceId : Z) :
  first <> second ->
  let srv' :=
    SocketHandler.run srv
      [SocketHandler.Connect first deviceId; SocketHandler.Connect second deviceId;
       SocketHandler.Disconnect first] in
  SocketHandler.sockets srv' second = Some deviceId
  /\ DeviceService.getDeviceSocket deviceId (SocketHandler.deviceSockets srv') = None
  /\ SocketHandler.deviceCommand deviceId srv' = SocketHandler.DeviceNotConnected.
Proof.
  intros Hne srv'. subst srv'. unfold SocketHandler.run. cbn [fold_left SocketHandler.handle].
  unfold SocketHandler.disconnect.
  assert (Hfirst : SocketHandler.sockets
                     (SocketHandler.connection second deviceId
                        (SocketHandler.connection first deviceId srv)) first
                   = Some deviceId).
  { cbn. apply String.eqb_neq in Hne. now rewrite Hne, String.eqb_refl. }
  rewrite Hfirst.
  unfold SocketHandler.deviceCommand, DeviceService.getDeviceSocket. cbn.
  unfold DeviceService.markDisconnected. rewrite Z.eqb_refl.
  assert ((second === first) = false) as -> by (apply String.eqb_neq; congruence).
  rewrite String.eqb_refl. repeat split.
Qed.

Lemma stale_disconnect_unregisters_device_witness :
  SocketHandler.deviceCommand 7
    (SocketHandler.run SocketHandler.start
       [SocketHandler.Connect "s1" 7; SocketHandler.Connect "s2" 7;
        SocketHandler.Disconnect "s1"])
  = SocketHandler.DeviceNotConnected.
Proof.
  exact (proj2 (proj2 (stale_disconnect_unregisters_device SocketHandler.start "s1" "s2" 7
                         ltac:(discriminate)))).
Defined.

(** ** The manifest route *)

(** X23. The manifest route answers with a manifest only to a request
    whose authorization header carries, as its second space-separated
    part, a token that verifies as a device token for the very device id
    of the path; the manifest is then the one of that device id. *)
Theorem manifest_only_for_own_device
        (verify : string -> option PlayerRoute.Payload)
        (parseInt : string -> JS.num)
        (query : string -> option (list DeviceService.Row))
        (baseUrl : string) (authorization : option string) (deviceId : string)
        (data : list WireItem) (id : JS.num) :
  PlayerRoute.getManifest verify parseInt query baseUrl authorization deviceId
  = PlayerRoute.Manifest data id ->
  exists (authHeader token : string) (payload : PlayerRoute.Payload),
    authorization = Some authHeader
    /\ nth_error (PlayerRoute.split " " authHeader) 1 = Some token
    /\ verify token = Some payload
    /\ PlayerRoute.role payload = "device"
    /\ PlayerRoute.differ (parseInt deviceId) (PlayerRoute.device_id payload) = false
    /\ data = DeviceService.getDeviceManifestOr baseUrl (query deviceId).
Proof.
  unfold PlayerRoute.getManifest, PlayerRoute.authenticateDevice.
  destruct authorization as [authHeader |]; [| discriminate].
  destruct (JS.truthy_str authHeader); [| discriminate].
  destruct (nth_error (PlayerRoute.split " " authHeader) 1) as [tok |] eqn:Etok;
    [| discriminate].
  destruct (JS.truthy_str tok); [| discriminate].
  destruct (verify tok) as [payload |] eqn:Ev; [| discriminate].
  destruct (String.eqb_spec (PlayerRoute.role payload) "device") as [Er | _];
    [| discriminate].
  destruct (PlayerRoute.differ (parseInt deviceId) (PlayerRoute.device_id payload)) eqn:Ed;
    [discriminate |].
  intros [= <- _]. exists authHeader, tok, payload. repeat split; assumption.
Qed.

Lemma manifest_only_for_own_device_witness :
  exists (authHeader token : string) (payload : PlayerRoute.Payload),
    Some "Bearer token" = Some authHeader
    /\ nth_error (PlayerRoute.split " " authHeader) 1 = Some token
    /\ sample_verify token = Some payload
    /\ PlayerRoute.role payload = "device"
    /\ PlayerRoute.differ (sample_parseInt "7") (PlayerRoute.device_id payload) = false
    /\ DeviceService.getDeviceManifest "http://localhost:3001" [rowA; rowB]
       = DeviceService.getDeviceManifestOr "http://localhost:3001" (sample_query "7").
Proof.
  exact (manifest_only_for_own_device sample_verify sample_parseInt sample_query
           "http://localhost:3001" (Some "Bearer token") "7"
           (DeviceService.getDeviceManifest "http://localhost:3001" [rowA; rowB])
           (JS.Num 7) eq_refl).
Defined.

(** X24. A rejected playlist query does not fail the manifest request: a
    request that passes the authentication is answered with status 200
    and an empty manifest, and a player that is online and receives it
    takes the empty playlist without an error message and persists it in
    place of the playlist it had stored. *)
Theorem rejected_query_empties_player
        (verify : string -> option PlayerRoute.Payload)
        (parseInt : string -> JS.num)
        (query : string -> option (list DeviceService.Row))
        (baseUrl : string) (authorization : option string) (deviceId : string)
        (deviceOfToken : JS.num) (tok : string) (now : Z)
        (ds : MediaPlayer.Storage) (st : MediaPlayer.State) :
  PlayerRoute.authenticateDevice verify authorization = inr deviceOfToken ->
  PlayerRoute.differ (parseInt deviceId) deviceOfToken = false ->
  query deviceId = None ->
  MediaPlayer.isOnline st = true ->
  JS.truthy_str tok = true ->
  let response :=
    PlayerRoute.getManifest verify parseInt query baseUrl authorization deviceId in
  let r := MediaPlayer.loadPlaylist (Some tok) (PlayerRoute.toApiResult response) now ds st in
  PlayerRoute.status response = 200
  /\ response = PlayerRoute.Manifest [] (parseInt deviceId)
  /\ MediaPlayer.playlist (fst (fst r)) = []
  /\ MediaPlayer.error (fst (fst r)) = None
  /\ DeviceStorage.getPlaylist (snd (fst r)) = [].
Proof.
  intros Hauth Hsame Hq Hon Htok response r. subst r response.
  unfold PlayerRoute.getManifest. rewrite Hauth, Hsame, Hq.
  unfold MediaPlayer.loadPlaylist. rewrite Hon, Htok.
  repeat split.
Qed.

Lemma rejected_query_empties_player_witness :
  DeviceStorage.getPlaylist
    (snd (fst (MediaPlayer.loadPlaylist (Some "token")
                 (PlayerRoute.toApiResult
                    (PlayerRoute.getManifest sample_verify sample_parseInt (fun _ => None)
                       "http://localhost:3001" (Some "Bearer token") "7"))
                 200 storedScenarioA (MediaPlayer.initialState true))))
  = [].
Proof.
  exact (proj2 (proj2 (proj2 (proj2
    (rejected_query_empties_player sample_verify sample_parseInt (fun _ => None)
       "http://localhost:3001" (Some "Bearer token") "7" (JS.Num 7) "token" 200
       storedScenarioA (MediaPlayer.initialState true)
       eq_refl eq_refl eq_refl eq_refl eq_refl))))).
Defined.

Lemma split_bearer (token : string) :
  nth_error (PlayerRoute.split " " ("Bearer " ++ token)) 1
  = Some (hd EmptyString (PlayerRoute.split " " token)).
Proof.
  simpl. destruct (PlayerRoute.split " " token) as [| first others] eqn:Es; [| reflexivity].
  destruct token as [| c rest]; simpl in Es; [discriminate |].
  destruct (Ascii.eqb c " "); [discriminate |].
  destruct (PlayerRoute.split " " rest); discriminate.
Qed.

(** X25. The start-up of the device app cannot tell a blocked device from
    a token that no longer verifies: when the token sent as
    ["Bearer <token>"] does not verify, verifies with another role, or
    belongs to another device id than the stored one, the manifest route
    answers 403, and [initializeDevice] then keeps the stored credentials,
    sets [isBlocked] and mounts the player on the blocked screen. *)
Theorem rejected_token_is_shown_as_blocked
        (verify : string -> option PlayerRoute.Payload)
        (parseInt parseIntOfApp : string -> JS.num)
        (query : string -> option (list DeviceService.Row))
        (baseUrl storedToken storedDeviceId : string) (uuid : option string) :
  let sent := hd EmptyString (PlayerRoute.split " " storedToken) in
  let ls := DeviceApp.mkLocal (Some storedToken) (Some storedDeviceId) uuid in
  let response :=
    PlayerRoute.getManifest verify parseInt query baseUrl
                            (Some ("Bearer " ++ storedToken)) storedDeviceId in
  let started := DeviceApp.initializeDevice parseIntOfApp ls (PlayerRoute.toProbe response) in
  JS.truthy_str sent = true ->
  JS.truthy_str storedDeviceId = true ->
  JS.truthy (parseIntOfApp storedDeviceId) = true ->
  match verify sent with
  | None => True
  | Some payload =>
      PlayerRoute.role payload <> "device"
      \/ PlayerRoute.differ (parseInt storedDeviceId) (PlayerRoute.device_id payload) = true
  end ->
  PlayerRoute.status response = 403
  /\ snd started = ls
  /\ DeviceApp.isBlocked (fst started) = true
  /\ DeviceApp.render (fst started) = DeviceApp.Player (parseIntOfApp storedDeviceId) true.
Proof.
  intros sent ls response started Hsent Hid Hparse Hbad.
  assert (Htoken : JS.truthy_str storedToken = true).
  { destruct storedToken; [subst sent; simpl in Hsent; discriminate | reflexivity]. }
  assert (Hstatus : PlayerRoute.status response = 403).
  { subst response. unfold PlayerRoute.getManifest, PlayerRoute.authenticateDevice.
    assert (Hheader : JS.truthy_str ("Bearer " ++ storedToken) = true) by reflexivity.
    rewrite Hheader, split_bearer. fold sent. rewrite Hsent.
    destruct (verify sent) as [payload |]; [| reflexivity].
    destruct (String.eqb_spec (PlayerRoute.role payload) "device") as [Er | Er];
      [| reflexivity].
    destruct Hbad as [Hrole | Hdiff]; [contradiction |].
    now rewrite Hdiff. }
  assert (Hprobe : PlayerRoute.toProbe response = DeviceApp.Rejected (Some 403)).
  { unfold PlayerRoute.toProbe. destruct response; simpl in Hstatus; try discriminate.
    reflexivity. }
  subst started. rewrite Hprobe. unfold DeviceApp.initializeDevice. subst ls.
  cbn [DeviceApp.device_token DeviceApp.device_id]. rewrite Htoken, Hid.
  cbn [andb fst snd DeviceApp.isBlocked]. unfold DeviceApp.render.
  cbn [DeviceApp.isLoading DeviceApp.deviceId DeviceApp.isBlocked]. rewrite Hparse.
  repeat split. exact Hstatus.
Qed.

Lemma rejected_token_is_shown_as_blocked_witness :
  DeviceApp.render
    (fst (DeviceApp.initializeDevice sample_parseInt
            (DeviceApp.mkLocal (Some "expired") (Some "7") None)
            (PlayerRoute.toProbe
               (PlayerRoute.getManifest sample_verify sample_parseInt sample_query
                  "http://localhost:3001" (Some ("Bearer " ++ "expired")) "7"))))
  = DeviceApp.Player (JS.Num 7) true.
Proof.
  exact (proj2 (proj2 (proj2
    (rejected_token_is_shown_as_blocked sample_verify sample_parseInt sample_parseInt
       sample_query "http://localhost:3001" "expired" "7" None
       eq_refl eq_refl eq_refl I)))).
Defined.

(** ** Start-up of the device app *)

(** X26. With stored credentials, the start-up removes the stored token,
    device id and UUID and shows the onboarding exactly when the manifest
    request fails with anything but status 403, which includes a failure
    without any response (no network); a response, or a failure with
    status 403, leaves the stored credentials as they are. *)
Theorem startup_clears_identity_unless_403
        (parseInt : string -> JS.num) (ls : DeviceApp.LocalStorage)
        (storedToken storedDeviceId : string) (probe : DeviceApp.Probe) :
  DeviceApp.device_token ls = Some storedToken ->
  DeviceApp.device_id ls = Some storedDeviceId ->
  JS.truthy_str storedToken && JS.truthy_str storedDeviceId = true ->
  let started := DeviceApp.initializeDevice parseInt ls probe in
  ((exists status, probe = DeviceApp.Rejected status /\ status <> Some 403) ->
   snd started = DeviceApp.clearIdentity ls
   /\ DeviceApp.render (fst started) = DeviceApp.Onboarding)
  /\ (snd started <> ls ->
      exists status, probe = DeviceApp.Rejected status /\ status <> Some 403)
  /\ (probe = DeviceApp.Rejected None -> snd started = DeviceApp.clearIdentity ls).
Proof.
  intros Ht Hd Htruthy started. subst started. split; [| split].
  - intros [status [-> Hstatus]].
    rewrite (status_other_than_403_clears parseInt ls storedToken storedDeviceId status)
      by assumption.
    split; reflexivity.
  - intros Hchanged. destruct probe as [success | status].
    + exfalso. apply Hchanged. unfold DeviceApp.initializeDevice.
      rewrite Ht, Hd, Htruthy. now destruct success.
    + exists status. split; [reflexivity |]. intros ->.
      apply Hchanged. unfold DeviceApp.initializeDevice.
      now rewrite Ht, Hd, Htruthy.
  - intros ->.
    now rewrite (status_other_than_403_clears parseInt ls storedToken storedDeviceId None)
      by (try assumption; discriminate).
Qed.

Lemma startup_clears_identity_unless_403_witness :
  snd (DeviceApp.initializeDevice sample_parseInt registeredDevice (DeviceApp.Rejected None))
  = DeviceApp.mkLocal None None None.
Proof.
  exact (proj2 (proj2 (startup_clears_identity_unless_403 sample_parseInt registeredDevice
                         "token" "7" (DeviceApp.Rejected None) eq_refl eq_refl eq_refl))
           eq_refl).
Defined.

(** ** Starting the player without the server *)

Lemma preloadMedia_url_truthy
      (digest_of : list Byte.byte -> string)
      (fetch : string -> option (list Byte.byte))
      (now : Z) (item : MediaPlayer.PlaylistItem) (ds : MediaPlayer.Storage) :
  JS.truthy_str (MediaPlayer.url item) = true ->
  MediaPlayer.truthyUrl
    (Some (fst (fst (MediaPlayer.preloadMedia digest_of fetch now item ds)))) = true.
Proof.
  intros Hu. unfold MediaPlayer.preloadMedia.
  destruct (DeviceStorage.isCached (MediaPlayer.url item) (MediaPlayer.checksum item) ds);
    [destruct (DeviceStorage.getCachedMedia (MediaPlayer.url item) ds) |];
    try reflexivity;
    destruct (fetch (MediaPlayer.url item)); cbn; try reflexivity; exact Hu.
Qed.

Lemma preloadMedia_sends_no_manifest_request
      (digest_of : list Byte.byte -> string)
      (fetch : string -> option (list Byte.byte))
      (now : Z) (item : MediaPlayer.PlaylistItem) (ds : MediaPlayer.Storage) (tok : string) :
  ~ In (MediaPlayer.GetManifest tok)
       (snd (MediaPlayer.preloadMedia digest_of fetch now item ds)).
Proof.
  unfold MediaPlayer.preloadMedia.
  destruct (DeviceStorage.isCached (MediaPlayer.url item) (MediaPlayer.checksum item) ds);
    [destruct (DeviceStorage.getCachedMedia (MediaPlayer.url item) ds) |];
    try (cbn; tauto);
    destruct (fetch (MediaPlayer.url item)); cbn; intros [H | []]; discriminate.
Qed.

(** X28. A player that starts offline with a persisted playlist whose
    first item is active plays from that playlist: it sends no manifest
    request, takes the persisted playlist as its playlist and renders the
    first item, in a video element if its type is video and in an image
    element otherwise, from the URL [preloadMedia] resolved for it. *)
Theorem offline_start_plays_persisted_playlist
        (digest_of : list Byte.byte -> string)
        (fetch : string -> option (list Byte.byte))
        (socket : bool) (token : option string) (resp : MediaPlayer.ApiResult) (now : Z)
        (ds : MediaPlayer.Storage) (first : MediaPlayer.PlaylistItem)
        (rest : list MediaPlayer.PlaylistItem) :
  DeviceStorage.getPlaylist ds = first :: rest ->
  MediaPlayer.active first = true ->
  JS.truthy_str (MediaPlayer.url first) = true ->
  let r := MediaPlayer.mount digest_of fetch false false socket token resp now ds in
  MediaPlayer.playlist (fst (fst (fst r))) = first :: rest
  /\ (forall tok, ~ In (MediaPlayer.GetManifest tok) (snd (fst r)))
  /\ snd r
     = MediaPlayer.MediaScreen (MediaPlayer.type first === "video")
         (fst (fst (MediaPlayer.preloadMedia digest_of fetch now first ds))).
Proof.
  intros Hstored Hactive Hurl r. subst r.
  assert (Hload : MediaPlayer.loadPlaylist token resp now ds (MediaPlayer.initialState false)
                  = (MediaPlayer.mkState (first :: rest) (JS.Num 0) false None false None
                                         None false, ds, [])).
  { unfold MediaPlayer.loadPlaylist. cbn [MediaPlayer.initialState MediaPlayer.isOnline].
    now rewrite Hstored. }
  unfold MediaPlayer.mount. rewrite Hload. cbv beta iota zeta.
  cbn [MediaPlayer.playlist].
  unfold MediaPlayer.loadCurrentMedia.
  cbn [MediaPlayer.playlist MediaPlayer.currentIndex].
  change (JS.get (first :: rest) (JS.Num 0)) with (Some first).
  cbv beta iota. rewrite Hactive.
  pose proof (preloadMedia_url_truthy digest_of fetch now first ds Hurl) as Htruthy.
  pose proof (preloadMedia_sends_no_manifest_request digest_of fetch now first ds) as Hno.
  destruct (MediaPlayer.preloadMedia digest_of fetch now first ds) as [[u d] q].
  cbn [fst snd] in Htruthy, Hno.
  assert (Hstarted : forall tok,
             ~ In (MediaPlayer.GetManifest tok)
                  (if socket
                   then [MediaPlayer.PlaybackEvent (MediaPlayer.id first)
                           (MediaPlayer.type first) "started"]
                   else [])).
  { intros tok. destruct socket; cbn; [intros [H | []]; discriminate | tauto]. }
  destruct (JS.get (first :: rest)
              (JS.rem (JS.add (JS.Num 0) (JS.Num 1)) (JS.length (first :: rest))))
    as [nextItem |].
  - destruct (MediaPlayer.active nextItem).
    + pose proof (preloadMedia_sends_no_manifest_request digest_of fetch now nextItem d)
        as Hno'.
      destruct (MediaPlayer.preloadMedia digest_of fetch now nextItem d) as [[u' d'] q'].
      cbn [fst snd] in Hno' |- *.
      split; [reflexivity |]. split.
      * intros tok Hin. cbn in Hin.
        apply in_app_or in Hin as [Hin | Hin]; [exact (Hno tok Hin) |].
        apply in_app_or in Hin as [Hin | Hin]; [exact (Hno' tok Hin) |].
        exact (Hstarted tok Hin).
      * unfold MediaPlayer.render. cbn. unfold MediaPlayer.truthyUrl in Htruthy.
        now rewrite Htruthy.
    + cbn [fst snd]. split; [reflexivity |]. split.
      * intros tok Hin. cbn in Hin.
        apply in_app_or in Hin as [Hin | Hin]; [exact (Hno tok Hin) |].
        exact (Hstarted tok Hin).
      * unfold MediaPlayer.render. cbn. unfold MediaPlayer.truthyUrl in Htruthy.
        now rewrite Htruthy.
  - cbn [fst snd]. split; [reflexivity |]. split.
    + intros tok Hin. cbn in Hin.
      apply in_app_or in Hin as [Hin | Hin]; [exact (Hno tok Hin) |].
      exact (Hstarted tok Hin).
    + unfold MediaPlayer.render. cbn. unfold MediaPlayer.truthyUrl in Htruthy.
      now rewrite Htruthy.
Qed.

Lemma offline_start_plays_persisted_playlist_witness :
  snd (MediaPlayer.mount sample_digest (fun _ => None) false false false None
         MediaPlayer.ApiError 200 storedScenarioA)
  = MediaPlayer.MediaScreen false (MediaPlayer.DirectUrl "http://cdn/a.png").
Proof.
  exact (proj2 (proj2 (offline_start_plays_persisted_playlist sample_digest (fun _ => None)
                         false None MediaPlayer.ApiError 200 storedScenarioA imageA [videoB]
                         eq_refl eq_refl eq_refl))).
Defined.

(** X29. After a failed manifest fetch (the request rejected, or no token
    to send) a player that had no playlist yet shows the "no content"
    screen with its retry button exactly when nothing was persisted;
    with a persisted playlist it goes on to prepare the media instead. *)
Theorem failed_fetch_shows_no_content_iff_nothing_persisted
        (token : option string) (resp : MediaPlayer.ApiResult) (now : Z)
        (ds : MediaPlayer.Storage) :
  resp = MediaPlayer.ApiError \/ JS.truthy_opt JS.truthy_str token = false ->
  let st := fst (fst (MediaPlayer.loadPlaylist token resp now ds
                        (MediaPlayer.initialState true))) in
  (DeviceStorage.getPlaylist ds = [] ->
   MediaPlayer.render false st = MediaPlayer.NoContentScreen "Nenhum conteúdo disponível")
  /\ (DeviceStorage.getPlaylist ds <> [] ->
      MediaPlayer.render false st = MediaPlayer.PreparingScreen
      /\ MediaPlayer.playlist st = DeviceStorage.getPlaylist ds).
Proof.
  intros Hfail st.
  assert (Hst : st = MediaPlayer.setIsLoading false
                       (MediaPlayer.loadPlaylistCatch ds
                          (MediaPlayer.setIsLoading true (MediaPlayer.initialState true)))).
  { subst st. unfold MediaPlayer.loadPlaylist.
    cbn [MediaPlayer.initialState MediaPlayer.isOnline].
    destruct token as [tok |]; [| reflexivity].
    destruct (JS.truthy_str tok) eqn:Ht; [| reflexivity].
    destruct Hfail as [-> | Hf]; [reflexivity | simpl in Hf; congruence]. }
  rewrite Hst. unfold MediaPlayer.loadPlaylistCatch. split.
  - intros ->. reflexivity.
  - intros Hne. destruct (DeviceStorage.getPlaylist ds) as [| p ps]; [congruence |].
    split; [| reflexivity].
    unfold MediaPlayer.render. cbn.
    now destruct (Z.to_nat 0).
Qed.

Lemma failed_fetch_shows_no_content_iff_nothing_persisted_witness :
  MediaPlayer.render false
    (fst (fst (MediaPlayer.loadPlaylist (Some "token") MediaPlayer.ApiError 200
                 (DeviceStorage.mkStore [] None [])
                 (MediaPlayer.initialState true))))
  = MediaPlayer.NoContentScreen "Nenhum conteúdo disponível".
Proof.
  exact (proj1 (failed_fetch_shows_no_content_iff_nothing_persisted (Some "token")
                  MediaPlayer.ApiError 200 (DeviceStorage.mkStore [] None [])
                  (or_introl eq_refl))
           eq_refl).
Defined.
